(** * taptaptrack: the icon generator and the screenshot whitespace trimmer

    A shallow embedding of [src/media/create_app_icon.py] and
    [src/utils/fix_white_space.py], and the properties of their pixel-level
    logic.

    - Python [int] is [Z]; Python [float] is IEEE 754 binary64, taken from
      the standard library's executable specification [SpecFloat]
      (precision 53, emax 1024, round to nearest even).
    - Code that can raise returns in the error monad [result].
    - An image is its size and its pixel access function; the PIL operations
      the scripts call ([crop], [getdata], [paste], [putpixel], [convert])
      are written out from their documented behaviour; the resampling of
      [resize] and [thumbnail] is a section variable, and [resize] raises
      [ValueError] for a size that is not positive. *)

From Stdlib Require Import ZArith List Lia Bool Sorting.Permutation Sorting.Sorted.
From Stdlib Require Import QArith.QArith_base QArith.Qround.
From Stdlib Require Import Floats.SpecFloat.
Import ListNotations.
Local Open Scope Z_scope.

(** ** Exceptions and the error monad *)

Inductive exn : Type :=
| ZeroDivisionError
| OverflowError
| ValueError
| IndexError.

Inductive result (A : Type) : Type :=
| Ok (a : A)
| Raise (e : exn).
Arguments Ok {A} a.
Arguments Raise {A} e.

Definition bind {A B : Type} (m : result A) (k : A -> result B) : result B :=
  match m with
  | Ok a => k a
  | Raise e => Raise e
  end.

Notation "x <- m ;; k" := (bind m (fun x => k))
  (at level 61, m at next level, right associativity).

(** ** Python floats *)

Module PyFloat.

Definition float : Type := spec_float.
Definition prec : Z := 53.
Definition emax : Z := 1024.

(** [float(n)] for an [int]; exact below [2^53] in magnitude, which covers
    every integer the two scripts convert (channel values, channel sums of
    a row, image coordinates). *)
Definition of_int (n : Z) : float := binary_normalize prec emax n 0 false.

Definition add : float -> float -> float := SFadd prec emax.
Definition sub : float -> float -> float := SFsub prec emax.
Definition mul : float -> float -> float := SFmul prec emax.
Definition div : float -> float -> float := SFdiv prec emax.

Definition ltb (x y : float) : bool := SFltb x y.
Definition gtb (x y : float) : bool := SFltb y x.

(** A decimal literal [n / 10^k] of the source ([1.5], [0.8]): the nearest
    double. *)
Definition literal (n d : Z) : float := div (of_int n) (of_int d).

(** [int / int], Python's true division. *)
Definition truediv (a b : Z) : result float :=
  if b =? 0 then Raise ZeroDivisionError else Ok (div (of_int a) (of_int b)).

(** [int(x)]: truncation toward zero; raises on infinities and NaN. *)
Definition to_int (x : float) : result Z :=
  match x with
  | S754_zero _ => Ok 0
  | S754_finite s m e =>
      let v := match e with
               | Z0 => Zpos m
               | Zpos _ => Z.shiftl (Zpos m) e
               | Zneg _ => Z.shiftr (Zpos m) (- e)
               end in
      Ok (if s then - v else v)
  | S754_infinity _ => Raise OverflowError
  | S754_nan => Raise ValueError
  end.

End PyFloat.

(** ** Ranges *)

(** [range(n)] *)
Definition range (n : Z) : list Z := map Z.of_nat (seq 0 (Z.to_nat n)).

(** [range(start, stop, -1)] *)
Definition range_down (start stop : Z) : list Z :=
  map (fun i => start - Z.of_nat i) (seq 0 (Z.to_nat (start - stop))).

(** ** Pixels *)

Definition rgb : Type := (Z * Z * Z)%type.
Definition rgba : Type := (Z * Z * Z * Z)%type.

Definition channel_ok (c : Z) : Prop := 0 <= c <= 255.

Definition rgb_ok (p : rgb) : Prop :=
  let '(r, g, b) := p in channel_ok r /\ channel_ok g /\ channel_ok b.

Definition rgba_ok (p : rgba) : Prop :=
  let '(r, g, b, a) := p in
  channel_ok r /\ channel_ok g /\ channel_ok b /\ channel_ok a.

(** Body of the loop of [convert_blue_to_white] (lines 52-65): the value
    stored back at [pixels[x, y]]. *)
Definition convert_blue_to_white_pixel (p : rgba) : result rgba :=
  let '(r, g, b, a) := p in
  brightness <- PyFloat.truediv (r + g + b) 3 ;;
  if PyFloat.gtb brightness (PyFloat.of_int 240) then
    Ok (255, 255, 255, 0)
  else
    opacity <- PyFloat.to_int (PyFloat.sub (PyFloat.of_int 255) brightness) ;;
    boosted <- PyFloat.to_int (PyFloat.mul (PyFloat.of_int opacity) (PyFloat.literal 15 10)) ;;
    let opacity := Z.min 255 boosted in
    Ok (255, 255, 255, opacity).

(** Body of the loop of [convert_to_white_preserve_shape] (lines 84-108).
    [max_diff] and [blue_intensity] are computed by the source and never
    used. *)
Definition convert_to_white_preserve_shape_pixel (p : rgba) : result rgba :=
  let '(r, g, b, a) := p in
  let is_white_bg := (245 <? r) && (245 <? g) && (245 <? b) in
  if is_white_bg then
    Ok (0, 0, 0, 0)
  else
    let max_diff := Z.max (Z.max (255 - r) (255 - g)) (255 - b) in
    avg_diff <- PyFloat.truediv (255 - r + 255 - g + 255 - b) 3 ;;
    let blue_intensity := Z.max 0 (b - Z.max r g) in
    let doubled := PyFloat.mul avg_diff (PyFloat.of_int 2) in
    (* min(255, avg_diff * 2): the float when it is below 255, else the int *)
    opacity <- (if PyFloat.ltb doubled (PyFloat.of_int 255)
                then PyFloat.to_int doubled else Ok 255) ;;
    if 10 <? opacity then Ok (255, 255, 255, opacity) else Ok (0, 0, 0, 0).

(** ** Images *)

(** A PIL image of one mode: its size and its pixel access object.  Reading
    or writing outside the size raises [IndexError] in PIL; neither script
    does, and [getpixel] is left unconstrained there. *)
Record Image (P : Type) : Type := mkImage {
  width : Z;
  height : Z;
  getpixel : Z -> Z -> P
}.
Arguments mkImage {P} _ _ _.
Arguments width {P} _.
Arguments height {P} _.
Arguments getpixel {P} _ _ _.

(** [pixels[x, y] = v] and [image.putpixel((x, y), v)] *)
Definition putpixel {P : Type} (im : Image P) (x y : Z) (v : P) : Image P :=
  mkImage (width im) (height im)
          (fun x' y' => if (x' =? x) && (y' =? y) then v else getpixel im x' y').

(** [Image.new(mode, (w, h), color)] *)
Definition Image_new {P : Type} (w h : Z) (color : P) : Image P :=
  mkImage w h (fun _ _ => color).

Definition inside {P : Type} (im : Image P) (x y : Z) : Prop :=
  0 <= x < width im /\ 0 <= y < height im.

(** Same size and same pixels inside it. *)
Definition same_image {P : Type} (a b : Image P) : Prop :=
  width a = width b /\ height a = height b /\
  forall x y, inside a x y -> getpixel a x y = getpixel b x y.

(** The two modes the scripts work in.  An opened file is in one of them
    (palette and greyscale files are outside the model). *)
Inductive pil_image : Type :=
| ImRGB (im : Image rgb)
| ImRGBA (im : Image rgba).

(** [im.convert('RGBA')]: an opaque alpha channel is added to an RGB image. *)
Definition convert_RGBA (im : pil_image) : Image rgba :=
  match im with
  | ImRGBA i => i
  | ImRGB i => mkImage (width i) (height i)
                 (fun x y => let '(r, g, b) := getpixel i x y in (r, g, b, 255))
  end.

(** [im.convert('RGB')]: the alpha channel is dropped. *)
Definition convert_RGB (im : pil_image) : Image rgb :=
  match im with
  | ImRGB i => i
  | ImRGBA i => mkImage (width i) (height i)
                  (fun x y => let '(r, g, b, _) := getpixel i x y in (r, g, b))
  end.

Definition pil_width (im : pil_image) : Z :=
  match im with ImRGB i => width i | ImRGBA i => width i end.

Definition pil_height (im : pil_image) : Z :=
  match im with ImRGB i => height i | ImRGBA i => height i end.

(** Every pixel inside the image has 8-bit channels. *)
Definition pil_ok (im : pil_image) : Prop :=
  match im with
  | ImRGB i => forall x y, inside i x y -> rgb_ok (getpixel i x y)
  | ImRGBA i => forall x y, inside i x y -> rgba_ok (getpixel i x y)
  end.

(** ** Loops *)

(** [for i in l: s = body(i, s)], stopping at the first exception. *)
Fixpoint for_each {S : Type} (l : list Z) (body : Z -> S -> result S) (s : S)
  : result S :=
  match l with
  | [] => Ok s
  | i :: l' => s' <- body i s ;; for_each l' body s'
  end.

(** ** The logo recolorizer (create_app_icon.py) *)

Definition convert_blue_to_white (logo : pil_image) : result (Image rgba) :=
  let logo := convert_RGBA logo in
  let pixels := logo in
  let '(width, height) := (width logo, height logo) in
  for_each (range height) (fun y pixels =>
    for_each (range width) (fun x pixels =>
      p <- convert_blue_to_white_pixel (getpixel pixels x y) ;;
      Ok (putpixel pixels x y p)) pixels) pixels.

Definition convert_to_white_preserve_shape (logo : pil_image)
  : result (Image rgba) :=
  let logo := convert_RGBA logo in
  let pixels := logo in
  let '(width, height) := (width logo, height logo) in
  for_each (range height) (fun y pixels =>
    for_each (range width) (fun x pixels =>
      p <- convert_to_white_preserve_shape_pixel (getpixel pixels x y) ;;
      Ok (putpixel pixels x y p)) pixels) pixels.

(** ** The gradient generator (create_app_icon.py) *)

(** Lines 29-32 for one channel: [int(c0 * (1 - ratio) + c1 * ratio)]. *)
Definition gradient_channel (ratio : PyFloat.float) (c0 c1 : Z) : result Z :=
  PyFloat.to_int
    (PyFloat.add
       (PyFloat.mul (PyFloat.of_int c0) (PyFloat.sub (PyFloat.of_int 1) ratio))
       (PyFloat.mul (PyFloat.of_int c1) ratio)).

(** Lines 29-33: the colour put at [(x, y)]. *)
Definition gradient_pixel (size : Z) (start_color end_color : rgb) (x y : Z)
  : result rgb :=
  let '(r0, g0, b0) := start_color in
  let '(r1, g1, b1) := end_color in
  ratio <- PyFloat.truediv (x + y) (2 * size) ;;
  r <- gradient_channel ratio r0 r1 ;;
  g <- gradient_channel ratio g0 g1 ;;
  b <- gradient_channel ratio b0 b1 ;;
  Ok (r, g, b).

Definition create_gradient (size : Z) (start_color end_color : rgb)
  : result (Image rgb) :=
  let image := Image_new size size (0, 0, 0) in
  for_each (range size) (fun y image =>
    for_each (range size) (fun x image =>
      p <- gradient_pixel size start_color end_color x y ;;
      Ok (putpixel image x y p)) image) image.

(** ** The compositor (create_app_icon.py, [main]) *)

Definition ICON_SIZE : Z := 1024.
Definition LOGO_SIZE : Z := 920.
Definition GRADIENT_START : rgb := (102, 126, 234).
Definition GRADIENT_END : rgb := (118, 75, 162).

(** The box a pasted image of size [w] x [h] covers at offset [(ox, oy)]. *)
Definition in_box (ox oy w h x y : Z) : bool :=
  (ox <=? x) && (x <? ox + w) && (oy <=? y) && (y <? oy + h).

Section IconPipeline.

(** [logo.thumbnail(size, Image.Resampling.LANCZOS)]: PIL's resampling;
    the image it leaves in [logo]. *)
Variable thumbnail : Image rgba -> Z * Z -> Image rgba.

(** PIL's per-channel mix of the current value and the pasted value under
    a mask value: [mix mask current pasted]. *)
Variable mix : Z -> Z -> Z -> Z.

(** Modelled from the spec: PIL's [Image.paste(im, box, mask)], which is not
    part of the repository.  Inside the box of the pasted image every
    channel is mixed under the alpha band of the mask; canvas pixels
    outside that region are unchanged. *)
Definition paste_mask (canvas im : Image rgba) (box : Z * Z)
           (mask : Image rgba) : Image rgba :=
  let '(ox, oy) := box in
  mkImage (width canvas) (height canvas)
    (fun x y =>
       if in_box ox oy (width im) (height im) x y then
         let '(r0, g0, b0, a0) := getpixel canvas x y in
         let '(r1, g1, b1, a1) := getpixel im (x - ox) (y - oy) in
         let '(_, _, _, m) := getpixel mask (x - ox) (y - oy) in
         (mix m r0 r1, mix m g0 g1, mix m b0 b1, mix m a0 a1)
       else getpixel canvas x y).

(** The colour channels of a canvas pixel after a pasted pixel is mixed into
    it under its own alpha. *)
Definition mix_over (current : rgb) (pasted : rgba) : rgb :=
  let '(r0, g0, b0) := current in
  let '(r1, g1, b1, a1) := pasted in
  (mix a1 r0 r1, mix a1 g0 g1, mix a1 b0 b1).

(** [main()].  The argument is the file at [LOGO_PATH], if it exists; the
    result is the image saved at [OUTPUT_PATH], if one is saved. *)
Definition main (logo_file : option pil_image) : result (option pil_image) :=
  match logo_file with
  | None => Ok None
  | Some logo =>
      background <- create_gradient ICON_SIZE GRADIENT_START GRADIENT_END ;;
      logo_white <- convert_to_white_preserve_shape logo ;;
      let logo_white := thumbnail logo_white (LOGO_SIZE, LOGO_SIZE) in
      let logo_x := (ICON_SIZE - width logo_white) / 2 in
      let logo_y := (ICON_SIZE - height logo_white) / 2 in
      let background := convert_RGBA (ImRGB background) in
      let background := paste_mask background logo_white (logo_x, logo_y) logo_white in
      let background := convert_RGB (ImRGBA background) in
      Ok (Some (ImRGB background))
  end.

End IconPipeline.

(** ** The whitespace trimmer (fix_white_space.py) *)

(** [len(l)] *)
Definition len {A : Type} (l : list A) : Z := Z.of_nat (length l).

(** [sum(l)] *)
Definition py_sum (l : list Z) : Z := fold_left Z.add l 0.

(** [l[i]] for [i >= 0] *)
Definition py_index {A : Type} (l : list A) (i : Z) : result A :=
  match nth_error l (Z.to_nat i) with
  | Some v => Ok v
  | None => Raise IndexError
  end.

(** [sorted(l)] on integers: the sorted permutation of [l]. *)
Fixpoint insert_sorted (v : Z) (l : list Z) : list Z :=
  match l with
  | [] => [v]
  | h :: t => if v <=? h then v :: l else h :: insert_sorted v t
  end.

Fixpoint py_sorted (l : list Z) : list Z :=
  match l with
  | [] => []
  | h :: t => insert_sorted h (py_sorted t)
  end.

(** [im.crop((left, upper, right, lower))]; PIL pads with black outside the
    source. *)
Definition crop (im : Image rgb) (box : Z * Z * Z * Z) : Image rgb :=
  let '(x0, y0, x1, y1) := box in
  mkImage (x1 - x0) (y1 - y0)
    (fun x y =>
       if (0 <=? x0 + x) && (x0 + x <? width im) &&
          (0 <=? y0 + y) && (y0 + y <? height im)
       then getpixel im (x0 + x) (y0 + y) else (0, 0, 0)).

(** [list(im.getdata())]: the pixels row by row. *)
Definition getdata {P : Type} (im : Image P) : list P :=
  flat_map (fun y => map (fun x => getpixel im x y) (range (width im)))
           (range (height im)).

(** [canvas.paste(im, (ox, oy))] without a mask. *)
Definition paste (canvas im : Image rgb) (box : Z * Z) : Image rgb :=
  let '(ox, oy) := box in
  mkImage (width canvas) (height canvas)
    (fun x y =>
       if in_box ox oy (width im) (height im) x y
       then getpixel im (x - ox) (y - oy) else getpixel canvas x y).

Definition red (p : rgb) : Z := let '(r, _, _) := p in r.
Definition green (p : rgb) : Z := let '(_, g, _) := p in g.
Definition blue (p : rgb) : Z := let '(_, _, b) := p in b.

(** [sum(p)] of a pixel tuple *)
Definition sum_rgb (p : rgb) : Z := red p + green p + blue p.

(** [p[0] > 250 and p[1] > 250 and p[2] > 250] *)
Definition near_white (p : rgb) : bool :=
  (250 <? red p) && (250 <? green p) && (250 <? blue p).

(** Lines 42-49: the test on the bottom row, [bottom_avg > 240 or
    bottom_white_ratio > 0.8]. *)
Definition bottom_is_white (img : Image rgb) : result bool :=
  let '(width, height) := (width img, height img) in
  let bottom_row := crop img (0, height - 1, width, height) in
  let bottom_pixels := getdata bottom_row in
  bottom_avg <- PyFloat.truediv (py_sum (map sum_rgb bottom_pixels))
                                (len bottom_pixels * 3) ;;
  let bottom_white := len (filter near_white bottom_pixels) in
  bottom_white_ratio <- PyFloat.truediv bottom_white (len bottom_pixels) ;;
  Ok (PyFloat.gtb bottom_avg (PyFloat.of_int 240)
      || PyFloat.gtb bottom_white_ratio (PyFloat.literal 8 10)).

(** Lines 52-64: the test on row [y] in the scan, [avg_brightness < 240 and
    white_ratio < 0.8]. *)
Definition row_is_content (img : Image rgb) (y : Z) : result bool :=
  let row := crop img (0, y, width img, y + 1) in
  let row_pixels := getdata row in
  avg_r <- PyFloat.truediv (py_sum (map red row_pixels)) (len row_pixels) ;;
  avg_g <- PyFloat.truediv (py_sum (map green row_pixels)) (len row_pixels) ;;
  avg_b <- PyFloat.truediv (py_sum (map blue row_pixels)) (len row_pixels) ;;
  let avg_brightness :=
    PyFloat.div (PyFloat.add (PyFloat.add avg_r avg_g) avg_b) (PyFloat.of_int 3) in
  let white_count := len (filter near_white row_pixels) in
  white_ratio <- PyFloat.truediv white_count (len row_pixels) ;;
  Ok (PyFloat.ltb avg_brightness (PyFloat.of_int 240)
      && PyFloat.ltb white_ratio (PyFloat.literal 8 10)).

(** Lines 51-66: the loop over the rows [ys], left at the first content row. *)
Fixpoint scan_rows (img : Image rgb) (ys : list Z) : result (option Z) :=
  match ys with
  | [] => Ok None
  | y :: ys' =>
      c <- row_is_content img y ;;
      if c then Ok (Some (y + 1)) else scan_rows img ys'
  end.

(** The rows the scan visits: [range(height - 1, max(0, height - 100), -1)]. *)
Definition scan_window (height : Z) : list Z :=
  range_down (height - 1) (Z.max 0 (height - 100)).

(** Lines 39-66: [content_bottom]. *)
Definition find_content_bottom (img : Image rgb) : result (option Z) :=
  white <- bottom_is_white img ;;
  if white then scan_rows img (scan_window (height img)) else Ok None.

(** Lines 87-91 and 94-98: the per-channel median of a list of pixels. *)
Definition median_color (pixels : list rgb) : result rgb :=
  let all_r := py_sorted (map red pixels) in
  let all_g := py_sorted (map green pixels) in
  let all_b := py_sorted (map blue pixels) in
  let mid := len all_r / 2 in
  r <- py_index all_r mid ;;
  g <- py_index all_g mid ;;
  b <- py_index all_b mid ;;
  Ok (r, g, b).

(** [50 < sum(p) < 600] *)
Definition mid_tone (p : rgb) : bool := (50 <? sum_rgb p) && (sum_rgb p <? 600).

(** Lines 78-80: the sampled pixels. *)
Definition sample_pixels (img : Image rgb) (content_bottom : Z) : list rgb :=
  let sample_start := Z.max 0 (content_bottom - 20) in
  let sample_area := crop img (0, sample_start, width img, content_bottom) in
  getdata sample_area.

(** Lines 77-98: [bg_color]. *)
Definition estimate_fill (img : Image rgb) (content_bottom : Z) : result rgb :=
  let sample_pixels := sample_pixels img content_bottom in
  let bg_pixels := filter mid_tone sample_pixels in
  if 50 <? len bg_pixels then median_color bg_pixels
  else median_color sample_pixels.

(** What one call leaves behind: the value returned, the file at
    [image_path], and the images handed to [save], oldest first. *)
Record outcome : Type := mkOutcome {
  returned : bool;
  file_after : pil_image;
  saves : list (Image rgb)
}.

(** [if target is None: target = default] *)
Definition or_default (target : option Z) (default : Z) : Z :=
  match target with
  | None => default
  | Some v => v
  end.

Section Trimmer.

(** The resampling of [img.resize(size, Image.Resampling.LANCZOS)], for a
    size PIL accepts. *)
Variable resize : Image rgb -> Z * Z -> Image rgb.

(** [img.resize(size, Image.Resampling.LANCZOS)]: PIL raises [ValueError]
    unless the width and the height asked for are both positive. *)
Definition pil_resize (img : Image rgb) (size : Z * Z) : result (Image rgb) :=
  let '(w, h) := size in
  if (w <=? 0) || (h <=? 0) then Raise ValueError else Ok (resize img size).

(** Lines 14-35: the target size, and the image, the file and the saves
    after the first phase.  Saving and reopening is taken to be lossless
    (PNG). *)
Definition normalize (file : pil_image) (target_width target_height : Z)
  : result (Image rgb * pil_image * list (Image rgb)) :=
  let img := file in
  let '(width, height) := (pil_width img, pil_height img) in
  let img := convert_RGB img in
  if negb (width =? target_width) || negb (height =? target_height) then
    img <- pil_resize img (target_width, target_height) ;;
    let file := ImRGB img in
    let img := convert_RGB file in
    Ok (img, file, [img])
  else Ok (img, file, []).

Definition remove_white_space (file : pil_image)
           (target_width target_height : option Z) : result outcome :=
  let target_width := or_default target_width 1242 in
  let target_height := or_default target_height 2688 in
  normalized <- normalize file target_width target_height ;;
  let '(img, file, saved) := normalized in
  let '(width, height) := (width img, height img) in
  content_bottom <- find_content_bottom img ;;
  match content_bottom with
  | Some content_bottom =>
      if negb (content_bottom =? 0) && (content_bottom <? target_height) then
        let new_img := Image_new target_width target_height (0, 0, 0) in
        let content_img := crop img (0, 0, width, content_bottom) in
        let new_img := paste new_img content_img (0, 0) in
        bg_color <- estimate_fill img content_bottom ;;
        let fill_height := target_height - content_bottom in
        if 0 <? fill_height then
          let fill_img := Image_new target_width fill_height bg_color in
          let new_img := paste new_img fill_img (0, content_bottom) in
          Ok (mkOutcome true (ImRGB new_img) (saved ++ [new_img]))
        else Ok (mkOutcome false file saved)
      else Ok (mkOutcome false file saved)
  | None => Ok (mkOutcome false file saved)
  end.

End Trimmer.

(** ** The claims in the words of the specification

    These definitions follow the sentences of the specification, in exact
    rational arithmetic; they are compared below with the definitions taken
    from the source. *)


(** Truncation toward zero. *)
Definition Qtruncate (q : Q) : Z := Z.quot (Qnum q) (Zpos (Qden q)).



(** "the linear interpolation of C0 and C1 at ratio t = (x + y) / (2N)
    truncated to integer channel values" *)
Definition interpolate_claimed (size c0 c1 x y : Z) : Z :=
  let t := (inject_Z (x + y) / inject_Z (2 * size))%Q in
  Qtruncate (inject_Z c0 * (1 - t) + inject_Z c1 * t)%Q.

Definition gradient_claimed (size : Z) (start_color end_color : rgb) (x y : Z)
  : rgb :=
  let '(r0, g0, b0) := start_color in
  let '(r1, g1, b1) := end_color in
  (interpolate_claimed size r0 r1 x y,
   interpolate_claimed size g0 g1 x y,
   interpolate_claimed size b0 b1 x y).

(** "every pixel's channel values lie between the corresponding channels of
    C0 and C1" *)
Definition between (c0 c1 v : Z) : Prop := Z.min c0 c1 <= v <= Z.max c0 c1.

Definition rgb_between (start_color end_color p : rgb) : Prop :=
  between (red start_color) (red end_color) (red p) /\
  between (green start_color) (green end_color) (green p) /\
  between (blue start_color) (blue end_color) (blue p).

(** "the fallback to the per-channel median of the unfiltered sample is taken
    exactly when fewer than 50 pixels survive the outlier filter" *)
Definition estimate_fill_claimed (img : Image rgb) (content_bottom : Z)
  : result rgb :=
  let sample_pixels := sample_pixels img content_bottom in
  let bg_pixels := filter mid_tone sample_pixels in
  if len bg_pixels <? 50 then median_color sample_pixels
  else median_color bg_pixels.

(** "scan upward from the last row over a window of 100 rows": the rows
    [height - 1] down to [height - 100] that exist. *)
Definition scan_window_claimed (height : Z) : list Z :=
  range_down (height - 1) (Z.max (-1) (height - 101)).

(** "a row counts as NOT white if and only if its average brightness is
    <= 240 AND its fraction of pixels with all three channels > 250 is
    <= 0.8" *)
Definition row_not_white_claimed (row_pixels : list rgb) : bool :=
  let n := inject_Z (len row_pixels) in
  let avg := (inject_Z (py_sum (map sum_rgb row_pixels)) / (3 * n))%Q in
  let fraction := (inject_Z (len (filter near_white row_pixels)) / n)%Q in
  Qle_bool avg 240 && Qle_bool fraction (8 # 10).

(** An upper median of [l]: the element at index [len(l) // 2] of the sorted
    permutation of [l]. *)
Definition is_median (l : list Z) (v : Z) : Prop :=
  exists s, Permutation s l /\ Sorted Z.le s /\
            nth_error s (Z.to_nat (len l / 2)) = Some v.

(** Transparent, or pure white and visible. *)
Definition transparent_or_white (p : rgba) : Prop :=
  let '(r, g, b, a) := p in
  a = 0 \/ (r = 255 /\ g = 255 /\ b = 255 /\ 0 < a).

(** ** Finite doubles of bounded magnitude *)

(** [fexp] at binary64: the exponent of the last bit of a double whose
    leading bit has exponent [e - 1]. *)
Definition fexp64 (e : Z) : Z := Z.max (e - 53) (-1074).

(** A zero, or a finite double below [2^M] in magnitude whose exponent is at
    most 0. *)
Definition small (M : Z) (x : PyFloat.float) : Prop :=
  match x with
  | S754_zero _ => True
  | S754_finite _ m e => e <= 0 /\ Zpos (digits2_pos m) + e <= M
  | _ => False
  end.

(** The colour [create_gradient] puts at [(x, y)]. *)
Definition gradient_value (size : Z) (start_color end_color : rgb) (x y : Z) : rgb :=
  match gradient_pixel size start_color end_color x y with
  | Ok p => p
  | Raise _ => (0, 0, 0)
  end.

(** ** The recolorizer's rules in integer arithmetic *)

(** [convert_blue_to_white] on one pixel: both [int()] calls truncate. *)
Definition blue_to_white_truncating (p : rgba) : rgba :=
  let '(r, g, b, _) := p in
  let total := r + g + b in
  if 720 <? total then (255, 255, 255, 0)
  else (255, 255, 255, Z.min 255 (3 * ((765 - total) / 3) / 2)).

(** [convert_to_white_preserve_shape] on one pixel: [int()] truncates. *)
Definition white_shape_truncating (p : rgba) : rgba :=
  let '(r, g, b, _) := p in
  if (245 <? r) && (245 <? g) && (245 <? b) then (0, 0, 0, 0)
  else
    let opacity := Z.min 255 (2 * ((255 - r) + (255 - g) + (255 - b)) / 3) in
    if opacity <=? 10 then (0, 0, 0, 0) else (255, 255, 255, opacity).

Definition rgba_eqb (p q : rgba) : bool :=
  let '(r, g, b, a) := p in
  let '(r', g', b', a') := q in
  (r =? r') && (g =? g') && (b =? b') && (a =? a').

Definition rgb_eqb (p q : rgb) : bool :=
  let '(r, g, b) := p in
  let '(r', g', b') := q in
  (r =? r') && (g =? g') && (b =? b').

(** A result that is [Ok] of the expected value. *)
Definition returns {A : Type} (eqb : A -> A -> bool) (m : result A) (v : A) : bool :=
  match m with
  | Ok a => eqb a v
  | Raise _ => false
  end.

(** The pixel at [(x, y)] of the image a call returns. *)
Definition result_pixel {P : Type} (m : result (Image P)) (x y : Z) : option P :=
  match m with
  | Ok im => Some (getpixel im x y)
  | Raise _ => None
  end.

Definition betweenb (c0 c1 v : Z) : bool :=
  (Z.min c0 c1 <=? v) && (v <=? Z.max c0 c1).

Definition rgb_betweenb (start_color end_color p : rgb) : bool :=
  betweenb (red start_color) (red end_color) (red p) &&
  betweenb (green start_color) (green end_color) (green p) &&
  betweenb (blue start_color) (blue end_color) (blue p).

(** The alpha channel and the colour channels of an RGBA pixel. *)
Definition alpha (p : rgba) : Z := let '(_, _, _, a) := p in a.
Definition color_of (p : rgba) : rgb := let '(r, g, b, _) := p in (r, g, b).

(** ** Sample inputs *)

(** A one-pixel RGBA logo. *)
Definition one_pixel (p : rgba) : pil_image := ImRGBA (Image_new 1 1 p).

(** A 2 x 1 logo: a white background pixel and a blue one. *)
Definition two_pixel_logo : pil_image :=
  ImRGB (mkImage 2 1 (fun x _ => if x =? 0 then (255, 255, 255) else (40, 80, 200))).

(** A resampling to instantiate [resize] with: nearest neighbour. *)
Definition nearest_resize (im : Image rgb) (size : Z * Z) : Image rgb :=
  let '(w, h) := size in
  mkImage w h (fun x y => getpixel im (x * width im / w) (y * height im / h)).

(** 1 x 101: two black rows, then 99 white rows. *)
Definition tall_gap_image : Image rgb :=
  mkImage 1 101 (fun _ y => if y <? 2 then (0, 0, 0) else (255, 255, 255)).

(** 1 x 3: a dark row, a row of brightness exactly 240, a white row. *)
Definition grey_row_image : Image rgb :=
  mkImage 1 3 (fun _ y => if y =? 2 then (255, 255, 255)
                          else if y =? 1 then (240, 240, 240) else (10, 10, 10)).

(** 5 x 2: a row with exactly four of five pixels near white, a white row. *)
Definition four_fifths_image : Image rgb :=
  mkImage 5 2 (fun x y => if y =? 1 then (255, 255, 255)
                          else if x <? 4 then (251, 251, 251) else (0, 0, 0)).

(** 10 x 22: twenty rows of black with 50 mid-tone pixels in the top left,
    then two white rows. *)
Definition fifty_survivors_image : Image rgb :=
  mkImage 10 22 (fun x y => if 20 <=? y then (255, 255, 255)
                            else if (x <? 5) && (y <? 10) then (100, 110, 120)
                            else (0, 0, 0)).

(** 1 x 2, dark; and 1 x 3, white. *)
Definition dark_image : Image rgb := Image_new 1 2 (10, 10, 10).
Definition white_image : Image rgb := Image_new 1 3 (255, 255, 255).

(** Instances of the PIL operations [main] is parameterised by: a logo that
    already fits is left as it is by [thumbnail], and PIL mixes 8-bit
    channels as [(current * (255 - mask) + pasted * mask) / 255], rounded. *)
Definition thumbnail_unchanged (im : Image rgba) (size : Z * Z) : Image rgba := im.

Definition blend8 (mask current pasted : Z) : Z :=
  let tmp := current * (255 - mask) + pasted * mask + 128 in
  (tmp / 256 + tmp) / 256.

(** A dark pixel, once opaque and once fully transparent. *)
Definition opaque_dark : Image rgba := Image_new 1 1 (40, 80, 200, 255).
Definition hidden_dark : Image rgba := Image_new 1 1 (40, 80, 200, 0).

(** * Properties *)

(** ** Ranges and exhaustive checks *)

Lemma In_range (n z : Z) : In z (range n) <-> 0 <= z < n.
Proof.
  unfold range. rewrite in_map_iff. split.
  - intros (i & <- & Hi). apply in_seq in Hi. lia.
  - intros Hz. exists (Z.to_nat z). split; [lia | apply in_seq; lia].
Qed.

Lemma NoDup_range (n : Z) : NoDup (range n).
Proof.
  unfold range. apply Finite.Injective_map_NoDup.
  - intros a b Hab. lia.
  - apply seq_NoDup.
Qed.

Lemma length_range (n : Z) : 0 <= n -> len (range n) = n.
Proof.
  intros Hn. unfold len, range. rewrite length_map, length_seq. lia.
Qed.

Lemma In_range_down (start stop z : Z) :
  In z (range_down start stop) <-> stop < z <= start.
Proof.
  unfold range_down. rewrite in_map_iff. split.
  - intros (i & <- & Hi). apply in_seq in Hi. lia.
  - intros Hz. exists (Z.to_nat (start - z)). split; [lia | apply in_seq; lia].
Qed.

(** A boolean property checked on all of [range n] holds on all of it. *)
Lemma forall_range (n : Z) (p : Z -> bool) :
  forallb p (range n) = true -> forall z, 0 <= z < n -> p z = true.
Proof.
  intros Hall z Hz. rewrite forallb_forall in Hall.
  apply Hall, In_range, Hz.
Qed.

(** ** The in-place pixel loops *)

Section PixelLoop.

Context {P : Type}.
Variable f : Z -> Z -> P -> result P.

Let row_body (y : Z) : Z -> Image P -> result (Image P) :=
  fun x pixels => p <- f x y (getpixel pixels x y) ;; Ok (putpixel pixels x y p).

Lemma for_each_row (y : Z) (xs : list Z) :
  NoDup xs ->
  forall s : Image P,
  (forall x, In x xs -> exists v, f x y (getpixel s x y) = Ok v) ->
  exists out,
    for_each xs (row_body y) s = Ok out /\
    width out = width s /\ height out = height s /\
    (forall x, In x xs -> f x y (getpixel s x y) = Ok (getpixel out x y)) /\
    (forall x' y', ~ (y' = y /\ In x' xs) -> getpixel out x' y' = getpixel s x' y').
Proof.
  induction 1 as [| x xs Hx Hnd IH]; intros s Hok.
  - exists s. simpl. repeat split; auto. intros x [].
  - destruct (Hok x (or_introl eq_refl)) as [v Hv].
    set (s1 := putpixel s x y v).
    assert (Hs1 : forall x', x' <> x -> getpixel s1 x' y = getpixel s x' y).
    { intros x' Hne. simpl. destruct (Z.eqb_spec x' x); [contradiction | reflexivity]. }
    destruct (IH s1) as (out & Hrun & Hw & Hh & Hin & Hout).
    { intros x' Hx'. rewrite Hs1 by (intros ->; contradiction).
      apply Hok. now right. }
    exists out. simpl. unfold row_body at 1. rewrite Hv. simpl. fold s1.
    split; [exact Hrun |]. split; [exact Hw |]. split; [exact Hh |]. split.
    + intros x' [<- | Hx'].
      * rewrite Hout by (intros [_ Hc]; contradiction).
        simpl. rewrite !Z.eqb_refl. exact Hv.
      * rewrite <- Hs1 by (intros ->; contradiction). now apply Hin.
    + intros x' y' Hn. rewrite Hout by (intros [-> Hc]; apply Hn; split; [reflexivity | now right]).
      simpl. destruct (Z.eqb_spec x' x) as [-> |]; [| reflexivity].
      destruct (Z.eqb_spec y' y) as [-> |]; [| reflexivity].
      exfalso. apply Hn. split; [reflexivity | now left].
Qed.

Lemma for_each_rows (xs ys : list Z) :
  NoDup xs -> NoDup ys ->
  forall s : Image P,
  (forall x y, In x xs -> In y ys -> exists v, f x y (getpixel s x y) = Ok v) ->
  exists out,
    for_each ys (fun y pixels => for_each xs (row_body y) pixels) s = Ok out /\
    width out = width s /\ height out = height s /\
    (forall x y, In x xs -> In y ys ->
                 f x y (getpixel s x y) = Ok (getpixel out x y)) /\
    (forall x y, ~ (In x xs /\ In y ys) -> getpixel out x y = getpixel s x y).
Proof.
  intros Hxs. induction 1 as [| y ys Hy Hnd IH]; intros s Hok.
  - exists s. simpl. repeat split; auto. intros x y _ [].
  - destruct (for_each_row y xs Hxs s) as (s1 & Hrun1 & Hw1 & Hh1 & Hin1 & Hout1).
    { intros x Hx. apply Hok; [exact Hx | now left]. }
    assert (Hs1 : forall x y', y' <> y -> getpixel s1 x y' = getpixel s x y').
    { intros x y' Hne. apply Hout1. intros [Hc _]. contradiction. }
    destruct (IH s1) as (out & Hrun & Hw & Hh & Hin & Hout).
    { intros x y' Hx Hy'. rewrite Hs1 by (intros ->; contradiction).
      apply Hok; [exact Hx | now right]. }
    exists out. simpl. rewrite Hrun1. simpl.
    split; [exact Hrun |]. split; [congruence |]. split; [congruence |]. split.
    + intros x y' Hx [<- | Hy'].
      * rewrite Hout by (intros [_ Hc]; contradiction). now apply Hin1.
      * rewrite <- Hs1 by (intros ->; contradiction). now apply Hin.
    + intros x y' Hn. rewrite Hout by (intros [Hc1 Hc2]; apply Hn; split; [exact Hc1 | now right]).
      apply Hout1. intros [-> Hc]. apply Hn. split; [exact Hc | now left].
Qed.

End PixelLoop.

(** ** The recolorizer, pixel by pixel *)

Lemma rgba_eqb_eq (p q : rgba) : rgba_eqb p q = true -> p = q.
Proof.
  destruct p as [[[r g] b] a], q as [[[r' g'] b'] a']. unfold rgba_eqb.
  rewrite !andb_true_iff, !Z.eqb_eq. intros [[[-> ->] ->] ->]. reflexivity.
Qed.

Lemma rgb_eqb_eq (p q : rgb) : rgb_eqb p q = true -> p = q.
Proof.
  destruct p as [[r g] b], q as [[r' g'] b']. unfold rgb_eqb.
  rewrite !andb_true_iff, !Z.eqb_eq. intros [[-> ->] ->]. reflexivity.
Qed.

Lemma returns_Ok {A : Type} (eqb : A -> A -> bool) (m : result A) (v : A) :
  (forall a b, eqb a b = true -> a = b) -> returns eqb m v = true -> m = Ok v.
Proof.
  intros Heq. destruct m as [a |]; simpl; [| discriminate].
  intros H. now rewrite (Heq _ _ H).
Qed.

(** [convert_blue_to_white] looks at the channel sum only. *)
Lemma blue_to_white_sum (r g b a : Z) :
  convert_blue_to_white_pixel (r, g, b, a)
  = convert_blue_to_white_pixel (r + g + b, 0, 0, 0).
Proof.
  unfold convert_blue_to_white_pixel.
  replace (r + g + b + 0 + 0) with (r + g + b) by lia. reflexivity.
Qed.

(** Every channel sum of an 8-bit pixel, evaluated. *)
Lemma blue_to_white_table :
  forallb (fun total =>
             returns rgba_eqb (convert_blue_to_white_pixel (total, 0, 0, 0))
                     (blue_to_white_truncating (total, 0, 0, 0)))
          (range 766) = true.
Proof. vm_compute. reflexivity. Qed.

Lemma blue_to_white_pixel_exact (p : rgba) :
  rgba_ok p ->
  convert_blue_to_white_pixel p = Ok (blue_to_white_truncating p).
Proof.
  destruct p as [[[r g] b] a]. intros (Hr & Hg & Hb & _).
  unfold channel_ok in *. rewrite blue_to_white_sum.
  pose proof (forall_range _ _ blue_to_white_table (r + g + b)) as H.
  apply returns_Ok in H; [| exact rgba_eqb_eq | lia].
  rewrite H. unfold blue_to_white_truncating.
  replace (r + g + b + 0 + 0) with (r + g + b) by lia. reflexivity.
Qed.

(** Off the background, [convert_to_white_preserve_shape] looks at the total
    deficit only. *)
Lemma white_shape_deficit (r g b a : Z) :
  (245 <? r) && (245 <? g) && (245 <? b) = false ->
  r <= 255 -> g <= 255 -> b <= 255 ->
  convert_to_white_preserve_shape_pixel (r, g, b, a)
  = convert_to_white_preserve_shape_pixel (r + g + b - 510, 255, 255, 0).
Proof.
  intros Hbg Hr Hg Hb. unfold convert_to_white_preserve_shape_pixel.
  rewrite Hbg.
  assert (Hlow : (245 <? r + g + b - 510) = false).
  { apply Z.ltb_ge. rewrite !andb_false_iff, !Z.ltb_ge in Hbg. lia. }
  rewrite Hlow. simpl andb. cbv iota.
  replace (255 - (r + g + b - 510) + 255 - 255 + 255 - 255)
    with (255 - r + 255 - g + 255 - b) by lia.
  reflexivity.
Qed.

Lemma white_shape_table :
  forallb (fun d =>
             returns rgba_eqb
                     (convert_to_white_preserve_shape_pixel (245 - d, 255, 255, 0))
                     (white_shape_truncating (245 - d, 255, 255, 0)))
          (range 756) = true.
Proof. vm_compute. reflexivity. Qed.

Lemma white_shape_pixel_exact (p : rgba) :
  rgba_ok p ->
  convert_to_white_preserve_shape_pixel p = Ok (white_shape_truncating p).
Proof.
  destruct p as [[[r g] b] a]. intros (Hr & Hg & Hb & _).
  unfold channel_ok in *.
  destruct ((245 <? r) && (245 <? g) && (245 <? b)) eqn:Hbg.
  - unfold convert_to_white_preserve_shape_pixel, white_shape_truncating.
    rewrite Hbg. reflexivity.
  - rewrite white_shape_deficit by (assumption || lia).
    assert (Hsum : r + g + b <= 755).
    { rewrite !andb_false_iff, !Z.ltb_ge in Hbg. lia. }
    pose proof (forall_range _ _ white_shape_table (755 - (r + g + b))) as H.
    apply returns_Ok in H; [| exact rgba_eqb_eq | lia].
    replace (245 - (755 - (r + g + b))) with (r + g + b - 510) in H by lia.
    rewrite H. unfold white_shape_truncating. rewrite Hbg.
    assert (Hlow : (245 <? r + g + b - 510) = false) by (apply Z.ltb_ge; lia).
    rewrite Hlow. simpl andb. cbv iota.
    replace (255 - (r + g + b - 510) + (255 - 255) + (255 - 255))
      with (255 - r + (255 - g) + (255 - b)) by lia.
    reflexivity.
Qed.

Lemma blue_to_white_truncating_shape (p : rgba) :
  rgba_ok p -> transparent_or_white (blue_to_white_truncating p).
Proof.
  destruct p as [[[r g] b] a]. intros (Hr & Hg & Hb & _).
  unfold channel_ok in *. unfold blue_to_white_truncating, transparent_or_white.
  destruct (Z.ltb_spec 720 (r + g + b)); [now left | right].
  repeat split; try reflexivity.
  assert (15 <= (765 - (r + g + b)) / 3) by (apply Z.div_le_lower_bound; lia).
  assert (22 <= 3 * ((765 - (r + g + b)) / 3) / 2) by (apply Z.div_le_lower_bound; lia).
  lia.
Qed.

Lemma white_shape_truncating_shape (p : rgba) :
  transparent_or_white (white_shape_truncating p).
Proof.
  destruct p as [[[r g] b] a].
  unfold white_shape_truncating, transparent_or_white.
  destruct ((245 <? r) && (245 <? g) && (245 <? b)); [now left |].
  destruct (Z.leb_spec (Z.min 255 (2 * (255 - r + (255 - g) + (255 - b)) / 3)) 10);
    [now left | right].
  repeat split; try reflexivity. lia.
Qed.

(** ** The recolorizer on images *)

Lemma convert_RGBA_ok (logo : pil_image) (x y : Z) :
  pil_ok logo -> inside (convert_RGBA logo) x y ->
  rgba_ok (getpixel (convert_RGBA logo) x y).
Proof.
  destruct logo as [i | i]; simpl; intros Hok Hin.
  - specialize (Hok x y Hin). destruct (getpixel i x y) as [[r g] b].
    simpl in *. unfold channel_ok in *. lia.
  - apply Hok, Hin.
Qed.

Lemma convert_RGBA_size (logo : pil_image) :
  width (convert_RGBA logo) = pil_width logo /\
  height (convert_RGBA logo) = pil_height logo.
Proof. destruct logo; split; reflexivity. Qed.

(** The loop shared by both policies: every pixel inside the image is
    replaced by its image under the per-pixel rule, the size is kept. *)
Lemma recolor_loop (f : rgba -> result rgba) (g : rgba -> rgba) (logo : Image rgba) :
  (forall x y, inside logo x y -> f (getpixel logo x y) = Ok (g (getpixel logo x y))) ->
  exists out,
    for_each (range (height logo)) (fun y pixels =>
      for_each (range (width logo)) (fun x pixels =>
        p <- f (getpixel pixels x y) ;; Ok (putpixel pixels x y p)) pixels) logo
    = Ok out /\
    width out = width logo /\ height out = height logo /\
    forall x y, inside out x y -> getpixel out x y = g (getpixel logo x y).
Proof.
  intros Hf.
  destruct (for_each_rows (fun _ _ p => f p) (range (width logo)) (range (height logo))
              (NoDup_range _) (NoDup_range _) logo)
    as (out & Hrun & Hw & Hh & Hin & _).
  { intros x y Hx Hy. rewrite In_range in Hx, Hy.
    eexists. apply Hf. split; assumption. }
  exists out. split; [exact Hrun |]. split; [exact Hw |]. split; [exact Hh |].
  intros x y [Hx Hy]. rewrite Hw in Hx. rewrite Hh in Hy.
  specialize (Hin x y (proj2 (In_range _ _) Hx) (proj2 (In_range _ _) Hy)).
  rewrite Hf in Hin by (split; assumption). now inversion Hin.
Qed.

Lemma convert_blue_to_white_spec (logo : pil_image) :
  pil_ok logo ->
  exists out,
    convert_blue_to_white logo = Ok out /\
    width out = pil_width logo /\ height out = pil_height logo /\
    forall x y, inside out x y ->
      getpixel out x y = blue_to_white_truncating (getpixel (convert_RGBA logo) x y).
Proof.
  intros Hok.
  destruct (recolor_loop convert_blue_to_white_pixel blue_to_white_truncating
              (convert_RGBA logo)) as (out & Hrun & Hw & Hh & Hpx).
  { intros x y Hin. apply blue_to_white_pixel_exact, convert_RGBA_ok; assumption. }
  destruct (convert_RGBA_size logo) as [Hw' Hh'].
  exists out. split; [exact Hrun |]. split; [congruence |]. split; [congruence |].
  exact Hpx.
Qed.

Lemma convert_to_white_preserve_shape_spec (logo : pil_image) :
  pil_ok logo ->
  exists out,
    convert_to_white_preserve_shape logo = Ok out /\
    width out = pil_width logo /\ height out = pil_height logo /\
    forall x y, inside out x y ->
      getpixel out x y = white_shape_truncating (getpixel (convert_RGBA logo) x y).
Proof.
  intros Hok.
  destruct (recolor_loop convert_to_white_preserve_shape_pixel white_shape_truncating
              (convert_RGBA logo)) as (out & Hrun & Hw & Hh & Hpx).
  { intros x y Hin. apply white_shape_pixel_exact, convert_RGBA_ok; assumption. }
  destruct (convert_RGBA_size logo) as [Hw' Hh'].
  exists out. split; [exact Hrun |]. split; [congruence |]. split; [congruence |].
  exact Hpx.
Qed.

Lemma two_pixel_logo_ok : pil_ok two_pixel_logo.
Proof.
  intros x y _. simpl. unfold channel_ok.
  destruct (x =? 0); repeat split; lia.
Defined.

Lemma one_pixel_ok (p : rgba) : rgba_ok p -> pil_ok (one_pixel p).
Proof. intros Hp x y _. exact Hp. Qed.

Ltac solve_two_pixel_ok :=
  intros ? ? _; simpl; unfold channel_ok;
  match goal with |- context [?x =? 0] => destruct (x =? 0) end;
  repeat split; lia.







(** C7.  For both recolorization policies and every 8-bit input image, the
    call returns an image of the input's width and height in which every
    pixel is either fully transparent (alpha 0) or pure white
    (255, 255, 255) with alpha above 0. *)
Theorem recolor_transparent_or_white (logo : pil_image) :
  pil_ok logo ->
  (exists out,
     convert_blue_to_white logo = Ok out /\
     width out = pil_width logo /\ height out = pil_height logo /\
     forall x y, inside out x y -> transparent_or_white (getpixel out x y))
  /\
  (exists out,
     convert_to_white_preserve_shape logo = Ok out /\
     width out = pil_width logo /\ height out = pil_height logo /\
     forall x y, inside out x y -> transparent_or_white (getpixel out x y)).
Proof.
  intros Hok. split.
  - destruct (convert_blue_to_white_spec logo Hok) as (out & Hrun & Hw & Hh & Hpx).
    exists out. repeat (split; [assumption |]).
    intros x y Hin. rewrite Hpx by assumption.
    apply blue_to_white_truncating_shape, convert_RGBA_ok; [assumption |].
    destruct (convert_RGBA_size logo) as [Hw' Hh'].
    unfold inside in *. rewrite Hw', Hh'. rewrite Hw, Hh in Hin. exact Hin.
  - destruct (convert_to_white_preserve_shape_spec logo Hok)
      as (out & Hrun & Hw & Hh & Hpx).
    exists out. repeat (split; [assumption |]).
    intros x y Hin. rewrite Hpx by assumption.
    apply white_shape_truncating_shape.
Qed.

Lemma recolor_transparent_or_white_witness :
  (exists out,
     convert_blue_to_white two_pixel_logo = Ok out /\
     width out = 2 /\ height out = 1 /\
     forall x y, inside out x y -> transparent_or_white (getpixel out x y))
  /\
  (exists out,
     convert_to_white_preserve_shape two_pixel_logo = Ok out /\
     width out = 2 /\ height out = 1 /\
     forall x y, inside out x y -> transparent_or_white (getpixel out x y)).
Proof.
  apply (recolor_transparent_or_white two_pixel_logo). solve_two_pixel_ok.
Defined.

(** ** Sorting and medians *)

Lemma insert_sorted_perm (v : Z) (l : list Z) :
  Permutation (insert_sorted v l) (v :: l).
Proof.
  induction l as [| h t IH]; simpl; [reflexivity |].
  destruct (v <=? h); [reflexivity |].
  rewrite IH. apply perm_swap.
Qed.

Lemma insert_sorted_sorted (v : Z) (l : list Z) :
  Sorted Z.le l -> Sorted Z.le (insert_sorted v l).
Proof.
  induction 1 as [| h t Hs IH Hhd]; simpl.
  - repeat constructor.
  - destruct (Z.leb_spec v h) as [Hle | Hgt].
    + constructor; [constructor; assumption | constructor; assumption].
    + constructor; [exact IH |].
      destruct t as [| h' t']; simpl.
      * constructor. lia.
      * destruct (v <=? h'); constructor; [lia | now inversion Hhd].
Qed.

Lemma py_sorted_perm (l : list Z) : Permutation (py_sorted l) l.
Proof.
  induction l as [| h t IH]; simpl; [reflexivity |].
  rewrite insert_sorted_perm. now constructor.
Qed.

Lemma py_sorted_sorted (l : list Z) : Sorted Z.le (py_sorted l).
Proof.
  induction l as [| h t IH]; simpl; [constructor |].
  now apply insert_sorted_sorted.
Qed.

Lemma len_py_sorted (l : list Z) : len (py_sorted l) = len l.
Proof. unfold len. now rewrite (Permutation_length (py_sorted_perm l)). Qed.

Lemma len_map {A B : Type} (f : A -> B) (l : list A) : len (map f l) = len l.
Proof. unfold len. now rewrite length_map. Qed.

Lemma py_index_median (l : list Z) (n : Z) :
  0 < n -> len l = n ->
  exists v, py_index (py_sorted l) (n / 2) = Ok v /\ is_median l v.
Proof.
  intros Hn Hlen. unfold py_index.
  assert (Hmid : 0 <= n / 2 < n) by (split; [apply Z.div_pos | apply Z.div_lt_upper_bound]; lia).
  destruct (nth_error (py_sorted l) (Z.to_nat (n / 2))) as [v |] eqn:Hnth.
  - exists v. split; [reflexivity |].
    exists (py_sorted l). rewrite Hlen.
    split; [apply py_sorted_perm |]. split; [apply py_sorted_sorted | exact Hnth].
  - apply nth_error_None in Hnth.
    pose proof (len_py_sorted l) as Hl. unfold len in Hl, Hlen. lia.
Qed.

Lemma median_color_spec (pixels : list rgb) :
  pixels <> [] ->
  exists r g b,
    median_color pixels = Ok (r, g, b) /\
    is_median (map red pixels) r /\
    is_median (map green pixels) g /\
    is_median (map blue pixels) b.
Proof.
  intros Hne. unfold median_color.
  assert (Hn : 0 < len pixels).
  { destruct pixels; [contradiction | unfold len; simpl; lia]. }
  rewrite len_py_sorted, len_map.
  destruct (py_index_median (map red pixels) (len pixels) Hn (len_map _ _)) as (r & Hr & Mr).
  destruct (py_index_median (map green pixels) (len pixels) Hn (len_map _ _)) as (g & Hg & Mg).
  destruct (py_index_median (map blue pixels) (len pixels) Hn (len_map _ _)) as (b & Hb & Mb).
  exists r, g, b. rewrite Hr, Hg, Hb. simpl. auto.
Qed.

(** ** Rows and samples of an image *)

Lemma flat_map_ext_in {A B : Type} (f g : A -> list B) (l : list A) :
  (forall a, In a l -> f a = g a) -> flat_map f l = flat_map g l.
Proof.
  induction l as [| a l IH]; intros H; simpl; [reflexivity |].
  rewrite (H a) by (now left). rewrite IH; [reflexivity |].
  intros b Hb. apply H. now right.
Qed.

(** The pixels of the rows [y0 <= y < y1], row by row. *)
Lemma getdata_crop_rows (img : Image rgb) (y0 y1 : Z) :
  0 <= y0 -> y1 <= height img ->
  getdata (crop img (0, y0, width img, y1))
  = flat_map (fun y => map (fun x => getpixel img x (y0 + y)) (range (width img)))
             (range (y1 - y0)).
Proof.
  intros H0 H1. unfold getdata, crop. simpl.
  rewrite Z.sub_0_r.
  apply flat_map_ext_in. intros y Hy. apply In_range in Hy.
  apply map_ext_in. intros x Hx. apply In_range in Hx.
  replace ((0 <=? x) && (x <? width img) && (0 <=? y0 + y) && (y0 + y <? height img))
    with true; [reflexivity |].
  symmetry. rewrite !andb_true_iff, !Z.leb_le, !Z.ltb_lt. lia.
Qed.

Lemma length_flat_map_const {A B : Type} (f : A -> list B) (l : list A) (n : nat) :
  (forall a, In a l -> length (f a) = n) ->
  length (flat_map f l) = (length l * n)%nat.
Proof.
  induction l as [| a l IH]; intros Hf; simpl; [reflexivity |].
  rewrite length_app, Hf by (now left). rewrite IH; [lia |].
  intros b Hb. apply Hf. now right.
Qed.

Lemma len_getdata {P : Type} (im : Image P) :
  0 <= width im -> 0 <= height im ->
  len (getdata im) = height im * width im.
Proof.
  intros Hw Hh. unfold len, getdata.
  rewrite (length_flat_map_const _ _ (Z.to_nat (width im))).
  - unfold range. rewrite length_map, length_seq. lia.
  - intros y _. unfold range. now rewrite !length_map, length_seq.
Qed.

(** A row of an image that is at least one pixel wide is not empty, and the
    divisions by its length do not raise. *)
Lemma len_row (img : Image rgb) (y0 y1 : Z) :
  0 < width img -> y1 - y0 = 1 ->
  len (getdata (crop img (0, y0, width img, y1))) = width img.
Proof.
  intros Hw Hy. rewrite len_getdata; simpl; lia.
Qed.

Lemma truediv_Ok (a b : Z) :
  b <> 0 -> exists q, PyFloat.truediv a b = Ok q.
Proof.
  intros Hb. unfold PyFloat.truediv.
  destruct (Z.eqb_spec b 0); [contradiction | eauto].
Qed.

Lemma row_is_content_total (img : Image rgb) (y : Z) :
  0 < width img -> exists c, row_is_content img y = Ok c.
Proof.
  intros Hw. unfold row_is_content. cbv zeta.
  rewrite !(len_row img y (y + 1)) by lia.
  set (row := getdata (crop img (0, y, width img, y + 1))).
  assert (Hne : width img <> 0) by lia.
  destruct (truediv_Ok (py_sum (map red row)) (width img) Hne) as [q1 ->].
  destruct (truediv_Ok (py_sum (map green row)) (width img) Hne) as [q2 ->].
  destruct (truediv_Ok (py_sum (map blue row)) (width img) Hne) as [q3 ->].
  destruct (truediv_Ok (len (filter near_white row)) (width img) Hne) as [q4 ->].
  simpl. eauto.
Qed.

Lemma bottom_is_white_total (img : Image rgb) :
  0 < width img -> exists c, bottom_is_white img = Ok c.
Proof.
  intros Hw. unfold bottom_is_white. cbv beta iota zeta.
  rewrite !(len_row img (height img - 1) (height img)) by lia.
  set (row := getdata (crop img (0, height img - 1, width img, height img))).
  destruct (truediv_Ok (py_sum (map sum_rgb row)) (width img * 3) ltac:(lia)) as [q1 ->].
  destruct (truediv_Ok (len (filter near_white row)) (width img) ltac:(lia)) as [q2 ->].
  simpl. eauto.
Qed.

(** ** The scan *)

(** The scan visits the rows [height - 1] down to [height - 99], and never
    row 0. *)
Lemma In_scan_window (height y : Z) :
  In y (scan_window height) <-> Z.max 0 (height - 100) < y <= height - 1.
Proof. unfold scan_window. apply In_range_down. Qed.

Lemma length_scan_window (height : Z) : (length (scan_window height) <= 99)%nat.
Proof.
  unfold scan_window, range_down. rewrite length_map, length_seq. lia.
Qed.

(** The scan returns [y + 1] for the first content row [y] of the list, and
    nothing when the list has none. *)
Lemma scan_rows_found (img : Image rgb) (ys : list Z) (b : Z) :
  scan_rows img ys = Ok (Some b) ->
  exists before y after,
    ys = before ++ y :: after /\ b = y + 1 /\
    row_is_content img y = Ok true /\
    forall y', In y' before -> row_is_content img y' = Ok false.
Proof.
  induction ys as [| y ys IH]; simpl; [discriminate |].
  destruct (row_is_content img y) as [[|] |] eqn:Hy; simpl; try discriminate.
  - intros H. inversion H. exists [], y, ys. repeat split; auto. intros ? [].
  - intros H. destruct (IH H) as (before & y0 & after & -> & -> & Hc & Hb).
    exists (y :: before), y0, after. repeat split; auto.
    intros y' [<- | Hy']; auto.
Qed.

Lemma scan_rows_none (img : Image rgb) (ys : list Z) :
  scan_rows img ys = Ok None <->
  forall y, In y ys -> row_is_content img y = Ok false.
Proof.
  induction ys as [| y ys IH]; simpl.
  - split; [intros _ ? [] | reflexivity].
  - destruct (row_is_content img y) as [[|] |] eqn:Hy; simpl.
    + split; [discriminate |]. intros H. specialize (H y (or_introl eq_refl)). congruence.
    + rewrite IH. split.
      * intros H y' [<- | Hy']; auto.
      * intros H y' Hy'. apply H. now right.
    + split; [discriminate |]. intros H. specialize (H y (or_introl eq_refl)). congruence.
Qed.

(** ** The trimmer *)

(** The first phase: it leaves the file alone when the size matches, saves
    the resized image when it does not, and raises when it has to resize to a
    size that is not positive. *)
Lemma normalize_Ok (resize : Image rgb -> Z * Z -> Image rgb) (file : pil_image)
      (tw th : Z) (img : Image rgb) (file1 : pil_image) (saved : list (Image rgb)) :
  normalize resize file tw th = Ok (img, file1, saved) ->
  (pil_width file = tw /\ pil_height file = th /\
   img = convert_RGB file /\ file1 = file /\ saved = [])
  \/
  ((pil_width file <> tw \/ pil_height file <> th) /\ 0 < tw /\ 0 < th /\
   img = resize (convert_RGB file) (tw, th) /\
   file1 = ImRGB (resize (convert_RGB file) (tw, th)) /\
   saved = [resize (convert_RGB file) (tw, th)]).
Proof.
  unfold normalize, pil_resize. cbv zeta.
  destruct (Z.eqb_spec (pil_width file) tw) as [Hw | Hw];
    destruct (Z.eqb_spec (pil_height file) th) as [Hh | Hh]; cbn [negb orb].
  - intros Heq. injection Heq as <- <- <-. left. repeat split; auto.
  - destruct (Z.leb_spec tw 0), (Z.leb_spec th 0); cbn [orb bind]; try discriminate.
    intros Heq. injection Heq as <- <- <-. right. repeat split; auto.
  - destruct (Z.leb_spec tw 0), (Z.leb_spec th 0); cbn [orb bind]; try discriminate.
    intros Heq. injection Heq as <- <- <-. right. repeat split; auto.
  - destruct (Z.leb_spec tw 0), (Z.leb_spec th 0); cbn [orb bind]; try discriminate.
    intros Heq. injection Heq as <- <- <-. right. repeat split; auto.
Qed.

Lemma normalize_raises (resize : Image rgb -> Z * Z -> Image rgb) (file : pil_image)
      (tw th : Z) :
  pil_width file <> tw \/ pil_height file <> th ->
  tw <= 0 \/ th <= 0 ->
  normalize resize file tw th = Raise ValueError.
Proof.
  intros Hsize Hneg. unfold normalize, pil_resize. cbv zeta.
  replace (negb (pil_width file =? tw) || negb (pil_height file =? th)) with true
    by (symmetry; rewrite orb_true_iff, !negb_true_iff, !Z.eqb_neq; exact Hsize).
  replace ((tw <=? 0) || (th <=? 0)) with true
    by (symmetry; rewrite orb_true_iff, !Z.leb_le; exact Hneg).
  reflexivity.
Qed.

(** C9 (as stated, refuted).  A dark 1 x 2 image trimmed to 3 x 4: the
    bottom row of the resized image is not white, the call returns False,
    and the file has been overwritten with the resized image. *)
Lemma no_op_rewrites_resized_file :
  bottom_is_white (nearest_resize dark_image (3, 4)) = Ok false
  /\ remove_white_space nearest_resize (ImRGB dark_image) (Some 3) (Some 4)
     = Ok (mkOutcome false (ImRGB (nearest_resize dark_image (3, 4)))
                     [nearest_resize dark_image (3, 4)])
  /\ ImRGB (nearest_resize dark_image (3, 4)) <> ImRGB dark_image.
Proof.
  split; [vm_compute; reflexivity |].
  split; [vm_compute; reflexivity |].
  intros H. apply (f_equal pil_width) in H. vm_compute in H. discriminate.
Qed.

(** C9 (amended).  Whenever the first phase succeeds (the image already has
    the target size, or both target dimensions are positive), and the
    bottom-most row of the normalized image is not white, or it is white and
    the scan finds no content row in its window, the call returns False
    without raising and saves nothing after the first phase; the file is the
    one the first phase left: the input file itself when the size already
    matched, the resized image when it did not. *)
Theorem no_op_conditions (resize : Image rgb -> Z * Z -> Image rgb)
        (file : pil_image) (target_width target_height : option Z)
        (img : Image rgb) (file1 : pil_image) (saved : list (Image rgb)) :
  let tw := or_default target_width 1242 in
  let th := or_default target_height 2688 in
  normalize resize file tw th = Ok (img, file1, saved) ->
  bottom_is_white img = Ok false \/
  (bottom_is_white img = Ok true /\
   scan_rows img (scan_window (height img)) = Ok None) ->
  remove_white_space resize file target_width target_height
    = Ok (mkOutcome false file1 saved)
  /\ (pil_width file = tw /\ pil_height file = th /\ file1 = file /\ saved = []
      \/
      (pil_width file <> tw \/ pil_height file <> th) /\ 0 < tw /\ 0 < th /\
      file1 = ImRGB (resize (convert_RGB file) (tw, th)) /\
      saved = [resize (convert_RGB file) (tw, th)]).
Proof.
  intros tw th Hnorm Hnoop. split.
  - unfold remove_white_space. cbv zeta. fold tw. fold th.
    rewrite Hnorm. cbn [bind]. cbv beta iota.
    unfold find_content_bottom.
    destruct Hnoop as [Hb | [Hb Hs]]; rewrite Hb; cbn [bind]; [reflexivity |].
    rewrite Hs. reflexivity.
  - destruct (normalize_Ok resize file tw th img file1 saved Hnorm)
      as [(Hw & Hh & _ & Hf & Hs) | (Hsize & Htw & Hth & _ & Hf & Hs)].
    + left. auto.
    + right. auto 10.
Qed.

Lemma no_op_conditions_witness :
  (remove_white_space nearest_resize (ImRGB dark_image) (Some 1) (Some 2)
     = Ok (mkOutcome false (ImRGB dark_image) [])
   /\ (pil_width (ImRGB dark_image) = 1 /\ pil_height (ImRGB dark_image) = 2 /\
       ImRGB dark_image = ImRGB dark_image /\ @nil (Image rgb) = []
       \/
       (pil_width (ImRGB dark_image) <> 1 \/ pil_height (ImRGB dark_image) <> 2) /\
       0 < 1 /\ 0 < 2 /\
       ImRGB dark_image
       = ImRGB (nearest_resize (convert_RGB (ImRGB dark_image)) (1, 2)) /\
       @nil (Image rgb) = [nearest_resize (convert_RGB (ImRGB dark_image)) (1, 2)]))
  /\
  (remove_white_space nearest_resize (ImRGB white_image) (Some 1) (Some 3)
     = Ok (mkOutcome false (ImRGB white_image) [])
   /\ (pil_width (ImRGB white_image) = 1 /\ pil_height (ImRGB white_image) = 3 /\
       ImRGB white_image = ImRGB white_image /\ @nil (Image rgb) = []
       \/
       (pil_width (ImRGB white_image) <> 1 \/ pil_height (ImRGB white_image) <> 3) /\
       0 < 1 /\ 0 < 3 /\
       ImRGB white_image
       = ImRGB (nearest_resize (convert_RGB (ImRGB white_image)) (1, 3)) /\
       @nil (Image rgb) = [nearest_resize (convert_RGB (ImRGB white_image)) (1, 3)])).
Proof.
  split.
  - apply (no_op_conditions nearest_resize (ImRGB dark_image) (Some 1) (Some 2)
             dark_image (ImRGB dark_image) []).
    + reflexivity.
    + left. vm_compute. reflexivity.
  - apply (no_op_conditions nearest_resize (ImRGB white_image) (Some 1) (Some 3)
             white_image (ImRGB white_image) []).
    + reflexivity.
    + right. split; vm_compute; reflexivity.
Defined.

(** C1 (the code at the failing input).  On a 1 x 101 image whose rows 0 and
    1 are black and whose 99 rows below are white, row 1 is the 100th row
    from the bottom and the scan's own test calls it content, so a scan over
    100 rows gives the boundary 2; the code's window stops at row 2, finds
    nothing, and the call returns False with the file untouched. *)
Theorem scan_window_misses_hundredth_row :
  bottom_is_white tall_gap_image = Ok true
  /\ In 1 (scan_window_claimed (height tall_gap_image))
  /\ ~ In 1 (scan_window (height tall_gap_image))
  /\ row_is_content tall_gap_image 1 = Ok true
  /\ scan_rows tall_gap_image (scan_window_claimed (height tall_gap_image)) = Ok (Some 2)
  /\ find_content_bottom tall_gap_image = Ok None
  /\ remove_white_space nearest_resize (ImRGB tall_gap_image) (Some 1) (Some 101)
     = Ok (mkOutcome false (ImRGB tall_gap_image) []).
Proof.
  split; [vm_compute; reflexivity |].
  split; [apply In_range_down; simpl; lia |].
  split; [rewrite In_scan_window; simpl; lia |].
  repeat split; vm_compute; reflexivity.
Qed.

(** C2 (the code at the failing inputs).  A row of brightness exactly 240,
    and a row with exactly four fifths of its pixels near white, are not
    white by the specification and by the bottom-row test, but the scan's
    test does not take them as content: the scan passes over them and the
    call returns False with the file untouched. *)
Theorem boundary_rows_are_skipped :
  (row_not_white_claimed (getdata (crop grey_row_image (0, 1, 1, 2))) = true
   /\ bottom_is_white (crop grey_row_image (0, 0, 1, 2)) = Ok false
   /\ row_is_content grey_row_image 1 = Ok false
   /\ find_content_bottom grey_row_image = Ok None
   /\ remove_white_space nearest_resize (ImRGB grey_row_image) (Some 1) (Some 3)
      = Ok (mkOutcome false (ImRGB grey_row_image) []))
  /\
  (row_not_white_claimed (getdata (crop four_fifths_image (0, 0, 5, 1))) = true
   /\ bottom_is_white (crop four_fifths_image (0, 0, 5, 1)) = Ok false
   /\ row_is_content four_fifths_image 0 = Ok false).
Proof.
  repeat split; vm_compute; reflexivity.
Qed.

(** ** The fill estimate *)

Lemma sample_pixels_rows (img : Image rgb) (content_bottom : Z) :
  content_bottom <= height img ->
  sample_pixels img content_bottom
  = flat_map (fun y => map (fun x => getpixel img x (Z.max 0 (content_bottom - 20) + y))
                           (range (width img)))
             (range (content_bottom - Z.max 0 (content_bottom - 20))).
Proof.
  intros Hcb. unfold sample_pixels. cbv zeta.
  apply getdata_crop_rows; lia.
Qed.

Lemma sample_pixels_len (img : Image rgb) (content_bottom : Z) :
  0 < width img -> 0 < content_bottom ->
  len (sample_pixels img content_bottom)
  = (content_bottom - Z.max 0 (content_bottom - 20)) * width img.
Proof.
  intros Hw Hcb. unfold sample_pixels. cbv zeta.
  rewrite len_getdata; simpl; lia.
Qed.

Lemma len_pos_nonempty {A : Type} (l : list A) : 0 < len l -> l <> [].
Proof. intros H ->. unfold len in H. simpl in H. lia. Qed.

(** C3 (as stated, refuted).  In a sample of 200 pixels of which exactly 50
    are mid-tone, the specification takes the median of the 50 survivors,
    (100, 110, 120); the code falls back to the median of all 200 pixels,
    black. *)
Lemma fill_fallback_counterexample :
  find_content_bottom fifty_survivors_image = Ok (Some 20)
  /\ len (filter mid_tone (sample_pixels fifty_survivors_image 20)) = 50
  /\ estimate_fill fifty_survivors_image 20 = Ok (0, 0, 0)
  /\ estimate_fill_claimed fifty_survivors_image 20 = Ok (100, 110, 120)
  /\ (0, 0, 0) <> (100, 110, 120).
Proof.
  repeat split; try (vm_compute; reflexivity). discriminate.
Qed.

(** C3 (amended).  The sample is the rows from max(0, boundary - 20) up to
    the boundary, at most 20 of them; the pixels kept are those of the sample
    with channel sum above 50 and below 600; the fill colour is, channel by
    channel, the median of the kept pixels when more than 50 are kept, and
    the median of the whole sample when 50 or fewer are kept. *)
Theorem estimate_fill_median (img : Image rgb) (content_bottom : Z) :
  0 < width img ->
  0 < content_bottom <= height img ->
  let start := Z.max 0 (content_bottom - 20) in
  let sample := sample_pixels img content_bottom in
  let kept := filter mid_tone sample in
  sample = flat_map (fun y => map (fun x => getpixel img x (start + y))
                                  (range (width img)))
                    (range (content_bottom - start))
  /\ 1 <= content_bottom - start <= 20
  /\ (forall p, In p kept <-> In p sample /\ 50 < sum_rgb p < 600)
  /\ exists r g b,
       estimate_fill img content_bottom = Ok (r, g, b) /\
       let source := if len kept <=? 50 then sample else kept in
       is_median (map red source) r /\
       is_median (map green source) g /\
       is_median (map blue source) b.
Proof.
  intros Hw Hcb start sample kept.
  split; [apply sample_pixels_rows; lia |].
  split; [subst start; lia |].
  split.
  { intros p. subst kept. rewrite filter_In. unfold mid_tone.
    rewrite andb_true_iff, !Z.ltb_lt. tauto. }
  unfold estimate_fill. fold sample. fold kept. cbv zeta.
  destruct (Z.ltb_spec 50 (len kept)) as [Hmany | Hfew].
  - destruct (Z.leb_spec (len kept) 50) as [Hc |]; [lia |].
    apply median_color_spec, len_pos_nonempty. lia.
  - destruct (Z.leb_spec (len kept) 50) as [| Hc]; [| lia].
    apply median_color_spec, len_pos_nonempty.
    subst sample. rewrite sample_pixels_len by lia. nia.
Qed.

Lemma estimate_fill_median_witness :
  let start := Z.max 0 (20 - 20) in
  let sample := sample_pixels fifty_survivors_image 20 in
  let kept := filter mid_tone sample in
  sample = flat_map (fun y => map (fun x => getpixel fifty_survivors_image x (start + y))
                                  (range (width fifty_survivors_image)))
                    (range (20 - start))
  /\ 1 <= 20 - start <= 20
  /\ (forall p, In p kept <-> In p sample /\ 50 < sum_rgb p < 600)
  /\ exists r g b,
       estimate_fill fifty_survivors_image 20 = Ok (r, g, b) /\
       let source := if len kept <=? 50 then sample else kept in
       is_median (map red source) r /\
       is_median (map green source) g /\
       is_median (map blue source) b.
Proof.
  apply (estimate_fill_median fifty_survivors_image 20); simpl; lia.
Defined.

(** ** Magnitudes of doubles

    Enough of the rounding of [SpecFloat] to see that the doubles of the
    gradient stay finite: the position of the leading bit is followed
    through [binary_round_aux] and the four operations. *)

Lemma digits2_pos_bounds (p : positive) :
  2 ^ (Zpos (digits2_pos p) - 1) <= Zpos p < 2 ^ Zpos (digits2_pos p).
Proof.
  induction p as [p IH | p IH |]; simpl digits2_pos.
  - rewrite Pos2Z.inj_succ.
    replace (Z.succ (Zpos (digits2_pos p)) - 1) with (Z.succ (Zpos (digits2_pos p) - 1)) by lia.
    rewrite !Z.pow_succ_r by lia. lia.
  - rewrite Pos2Z.inj_succ.
    replace (Z.succ (Zpos (digits2_pos p)) - 1) with (Z.succ (Zpos (digits2_pos p) - 1)) by lia.
    rewrite !Z.pow_succ_r by lia. lia.
  - simpl. lia.
Qed.

Lemma Zdigits2_nonneg (m : Z) : 0 <= Zdigits2 m.
Proof. destruct m; simpl; lia. Qed.

Lemma Zdigits2_le (m n : Z) : 0 <= m < 2 ^ n -> 0 <= n -> Zdigits2 m <= n.
Proof.
  intros [Hm Hlt] Hn. destruct m as [| p | p]; simpl; try lia.
  destruct (Z_le_gt_dec (Zpos (digits2_pos p)) n) as [| Hgt]; [assumption | exfalso].
  pose proof (digits2_pos_bounds p) as [Hlow _].
  assert (2 ^ n <= 2 ^ (Zpos (digits2_pos p) - 1)) by (apply Z.pow_le_mono_r; lia).
  lia.
Qed.

Lemma Zdigits2_lt_pow (m : Z) : 0 <= m -> m < 2 ^ Zdigits2 m.
Proof.
  intros Hm. destruct m as [| p | p]; simpl; try lia.
  apply digits2_pos_bounds.
Qed.

Lemma Zdigits2_mono (a b : Z) : 0 <= a <= b -> Zdigits2 a <= Zdigits2 b.
Proof.
  intros [Ha Hab]. apply Zdigits2_le; [| apply Zdigits2_nonneg].
  pose proof (Zdigits2_lt_pow b ltac:(lia)). lia.
Qed.

Lemma shr_1_digits (r : shr_record) :
  0 <= shr_m r ->
  0 <= shr_m (shr_1 r) /\
  Zdigits2 (shr_m (shr_1 r)) = Z.max 0 (Zdigits2 (shr_m r) - 1).
Proof.
  destruct r as [m rb sb]. simpl shr_m at 1. intros Hm.
  destruct m as [| [p | p |] | p]; cbn [shr_1 shr_m Zdigits2 digits2_pos];
    rewrite ?Pos2Z.inj_succ; lia.
Qed.

Lemma iter_shr_1_digits (p : positive) :
  forall r, 0 <= shr_m r ->
  0 <= shr_m (iter_pos shr_1 p r) /\
  Zdigits2 (shr_m (iter_pos shr_1 p r)) = Z.max 0 (Zdigits2 (shr_m r) - Zpos p).
Proof.
  induction p as [p IH | p IH |]; intros r Hr; simpl iter_pos.
  - destruct (shr_1_digits r Hr) as [H1 E1].
    destruct (IH _ H1) as [H2 E2]. destruct (IH _ H2) as [H3 E3].
    split; [assumption |]. rewrite E3, E2, E1. lia.
  - destruct (IH _ Hr) as [H2 E2]. destruct (IH _ H2) as [H3 E3].
    split; [assumption |]. rewrite E3, E2. lia.
  - apply shr_1_digits, Hr.
Qed.

Lemma fexp_eq (e : Z) : fexp PyFloat.prec PyFloat.emax e = fexp64 e.
Proof. reflexivity. Qed.

(** [shr_fexp] on a non-negative mantissa. *)
Lemma shr_fexp_bounds (m e : Z) (l : location) :
  0 <= m ->
  let '(r, e') := shr_fexp PyFloat.prec PyFloat.emax m e l in
  0 <= shr_m r /\
  e' = Z.max e (fexp64 (Zdigits2 m + e)) /\
  Zdigits2 (shr_m r) + e' <= Z.max (Zdigits2 m + e) (-1074).
Proof.
  intros Hm. unfold shr_fexp. rewrite fexp_eq.
  set (n := fexp64 (Zdigits2 m + e) - e).
  assert (Hrec : shr_m (shr_record_of_loc m l) = m)
    by (destruct l as [| []]; reflexivity).
  unfold shr. destruct n as [| p | p] eqn:Hn.
  - rewrite Hrec. unfold fexp64 in *. lia.
  - destruct (iter_shr_1_digits p (shr_record_of_loc m l)) as [H1 E1];
      [rewrite Hrec; assumption |].
    split; [assumption |]. rewrite E1, Hrec.
    unfold fexp64 in *. pose proof (Zdigits2_nonneg m). lia.
  - rewrite Hrec. unfold fexp64 in *. lia.
Qed.

Lemma round_nearest_even_bounds (m : Z) (l : location) :
  0 <= m ->
  0 <= round_nearest_even m l /\
  Zdigits2 (round_nearest_even m l) <= Zdigits2 m + 1.
Proof.
  intros Hm.
  assert (Hsucc : Zdigits2 (m + 1) <= Zdigits2 m + 1).
  { apply Zdigits2_le; [| pose proof (Zdigits2_nonneg m); lia].
    pose proof (Zdigits2_lt_pow m Hm). pose proof (Zdigits2_nonneg m).
    rewrite Z.pow_add_r by lia. lia. }
  assert (Hsame : Zdigits2 m <= Zdigits2 m + 1) by lia.
  destruct l as [| []]; simpl; try (split; [lia | assumption]).
  destruct (Z.even m); split; lia || assumption.
Qed.

Lemma binary_round_aux_small (sx : bool) (mx ex : Z) (lx : location) (M : Z) :
  0 <= mx -> ex <= 0 -> Zdigits2 mx + ex <= M -> -1074 <= M -> M <= 52 ->
  small (M + 1) (binary_round_aux PyFloat.prec PyFloat.emax sx mx ex lx).
Proof.
  intros Hm He Hmag HM1 HM2. unfold binary_round_aux.
  pose proof (shr_fexp_bounds mx ex lx Hm) as H1.
  destruct (shr_fexp PyFloat.prec PyFloat.emax mx ex lx) as [r1 e1].
  destruct H1 as (Hr1 & He1 & Hd1).
  destruct (round_nearest_even_bounds (shr_m r1) (loc_of_shr_record r1) Hr1) as [Hr2 Hd2].
  pose proof (shr_fexp_bounds (round_nearest_even (shr_m r1) (loc_of_shr_record r1))
                e1 loc_Exact Hr2) as H3.
  destruct (shr_fexp PyFloat.prec PyFloat.emax (round_nearest_even (shr_m r1) (loc_of_shr_record r1))
              e1 loc_Exact) as [r3 e3].
  destruct H3 as (Hr3 & He3 & Hd3).
  unfold fexp64 in *.
  destruct (shr_m r3) as [| m3 | m3] eqn:Hm3; simpl; try exact I; try lia.
  assert (He3' : e3 <= 0) by lia.
  replace (e3 <=? 971) with true by (symmetry; apply Z.leb_le; lia).
  simpl. simpl in Hd3. split; lia.
Qed.

Lemma small_weaken (M M' : Z) (x : PyFloat.float) : M <= M' -> small M x -> small M' x.
Proof. destruct x; simpl; try tauto. lia. Qed.

(** [Pos.iter xO m d] is [m * 2^d]. *)
Lemma digits2_pos_shift (m d : positive) :
  Zpos (digits2_pos (Pos.iter xO m d)) = Zpos (digits2_pos m) + Zpos d.
Proof.
  induction d as [| d IH] using Pos.peano_ind.
  - simpl. lia.
  - rewrite Pos.iter_succ. simpl digits2_pos. rewrite Pos2Z.inj_succ, IH. lia.
Qed.

Lemma Zpos_shift (m d : positive) :
  Zpos (Pos.iter xO m d) = Zpos m * 2 ^ Zpos d.
Proof.
  induction d as [| d IH] using Pos.peano_ind.
  - simpl. lia.
  - rewrite Pos.iter_succ, Pos2Z.inj_xO, IH, Pos2Z.inj_succ, Z.pow_succ_r by lia. lia.
Qed.

Lemma shl_align_digits (mx : positive) (ex ex' : Z) :
  let '(mz, ez) := shl_align mx ex ex' in
  ez = Z.min ex ex' /\ Zpos (digits2_pos mz) + ez = Zpos (digits2_pos mx) + ex
  /\ Zpos mz = Zpos mx * 2 ^ (ex - ez).
Proof.
  unfold shl_align. destruct (ex' - ex) as [| d | d] eqn:Hd.
  - split; [lia |]. split; [lia |]. rewrite Z.sub_diag. simpl. lia.
  - split; [lia |]. split; [lia |]. rewrite Z.sub_diag. simpl. lia.
  - split; [lia |]. rewrite digits2_pos_shift, Zpos_shift.
    replace (ex - ex') with (Zpos d) by lia. lia.
Qed.

Lemma binary_round_small (sx : bool) (mx : positive) (ex M : Z) :
  ex <= 0 -> Zpos (digits2_pos mx) + ex <= M -> -1074 <= M -> M <= 52 ->
  small (M + 1) (binary_round PyFloat.prec PyFloat.emax sx mx ex).
Proof.
  intros He Hmag HM1 HM2. unfold binary_round.
  pose proof (shl_align_digits mx ex (fexp PyFloat.prec PyFloat.emax (Zpos (digits2_pos mx) + ex))) as H.
  destruct (shl_align mx ex (fexp PyFloat.prec PyFloat.emax (Zpos (digits2_pos mx) + ex))) as [mz ez].
  destruct H as (Hez & Hdig & _).
  apply binary_round_aux_small; simpl Zdigits2; lia.
Qed.

Lemma binary_normalize_small (m e M : Z) :
  e <= 0 -> Zdigits2 m + e <= M -> -1074 <= M -> M <= 52 ->
  small (M + 1) (binary_normalize PyFloat.prec PyFloat.emax m e false).
Proof.
  intros He Hmag HM1 HM2. destruct m as [| p | p]; simpl binary_normalize.
  - exact I.
  - apply binary_round_small; assumption.
  - apply binary_round_small; assumption.
Qed.

Lemma binary_round_aux_exact (sx : bool) (mz : positive) (ez : Z) :
  Zpos (digits2_pos mz) = 53 -> -1074 <= ez <= 971 ->
  binary_round_aux PyFloat.prec PyFloat.emax sx (Zpos mz) ez loc_Exact = S754_finite sx mz ez.
Proof.
  intros Hd He. unfold binary_round_aux, shr_fexp.
  cbn [shr_record_of_loc Zdigits2].
  replace (fexp PyFloat.prec PyFloat.emax (Zpos (digits2_pos mz) + ez) - ez) with 0
    by (rewrite fexp_eq; unfold fexp64; lia).
  cbn [shr shr_m loc_of_shr_record round_nearest_even shr_record_of_loc Zdigits2].
  replace (fexp PyFloat.prec PyFloat.emax (Zpos (digits2_pos mz) + ez) - ez) with 0
    by (rewrite fexp_eq; unfold fexp64; lia).
  cbn [shr shr_m].
  replace (ez <=? PyFloat.emax - PyFloat.prec) with true
    by (symmetry; apply Z.leb_le; unfold PyFloat.emax, PyFloat.prec; lia).
  reflexivity.
Qed.

Lemma of_int_finite (z : Z) :
  0 < z < 2 ^ 53 ->
  exists m e, PyFloat.of_int z = S754_finite false m e /\ e <= 0 /\
              Zpos (digits2_pos m) + e = Zdigits2 z.
Proof.
  intros [Hpos Hlt]. destruct z as [| p | p]; try lia.
  unfold PyFloat.of_int. cbn [binary_normalize]. unfold binary_round.
  assert (Hd : 1 <= Zpos (digits2_pos p) <= 53).
  { split; [lia |]. apply (Zdigits2_le (Zpos p) 53); lia. }
  pose proof (shl_align_digits p 0 (fexp PyFloat.prec PyFloat.emax (Zpos (digits2_pos p) + 0))) as H.
  destruct (shl_align p 0 (fexp PyFloat.prec PyFloat.emax (Zpos (digits2_pos p) + 0))) as [mz ez].
  destruct H as (Hez & Hdig & _).
  rewrite fexp_eq in Hez. unfold fexp64 in Hez.
  exists mz, ez. split; [| simpl Zdigits2; lia].
  apply binary_round_aux_exact; lia.
Qed.

Lemma of_int_small (z : Z) :
  0 <= z < 2 ^ 53 -> small (Zdigits2 z) (PyFloat.of_int z).
Proof.
  intros [H0 Hlt]. destruct (Z.eq_dec z 0) as [-> | Hne]; [exact I |].
  destruct (of_int_finite z) as (m & e & -> & He & Hmag); [lia |].
  cbn [small]. lia.
Qed.

Lemma Zdigits2_abs_le (m n : Z) : Z.abs m < 2 ^ n -> 0 <= n -> Zdigits2 m <= n.
Proof.
  intros Hlt Hn. destruct m as [| p | p].
  - simpl. lia.
  - apply Zdigits2_le; lia.
  - change (Zdigits2 (Zneg p)) with (Zdigits2 (Zpos p)). apply Zdigits2_le; lia.
Qed.

Lemma mul_small (A B : Z) (x y : PyFloat.float) :
  small A x -> small B y -> -1074 <= A + B -> A + B <= 52 ->
  small (A + B + 1) (PyFloat.mul x y).
Proof.
  intros Hx Hy H1 H2.
  destruct x as [sx | sx | | sx mx ex], y as [sy | sy | | sy my ey];
    cbn [small] in Hx, Hy; try contradiction; try exact I.
  destruct Hx as [Hex Hmx], Hy as [Hey Hmy].
  unfold PyFloat.mul. cbn [SFmul]. apply binary_round_aux_small; try lia.
  assert (Zdigits2 (Zpos (mx * my)) <= Zpos (digits2_pos mx) + Zpos (digits2_pos my)); [| lia].
  apply Zdigits2_le; [| lia].
  pose proof (digits2_pos_bounds mx) as [_ Hx]. pose proof (digits2_pos_bounds my) as [_ Hy].
  rewrite Z.pow_add_r by lia. rewrite Pos2Z.inj_mul. nia.
Qed.

(** Two aligned mantissas and their signed sum. *)
Lemma aligned_sum_digits (sx sy : bool) (mx my : positive) (ex ey M : Z) (sub : bool) :
  Zpos (digits2_pos mx) + ex <= M -> Zpos (digits2_pos my) + ey <= M ->
  let ez := Z.min ex ey in
  let a := cond_Zopp sx (Zpos (fst (shl_align mx ex ez))) in
  let b := cond_Zopp sy (Zpos (fst (shl_align my ey ez))) in
  Zdigits2 (if sub then a - b else a + b) + ez <= M + 1.
Proof.
  intros Hx Hy ez a b.
  pose proof (shl_align_digits mx ex ez) as Ha.
  pose proof (shl_align_digits my ey ez) as Hb.
  subst a b. destruct (shl_align mx ex ez) as [ma ea], (shl_align my ey ez) as [mb eb].
  destruct Ha as (Hea & Hda & _), Hb as (Heb & Hdb & _). cbn [fst].
  assert (Hea' : ea = ez) by (subst ez; lia).
  assert (Heb' : eb = ez) by (subst ez; lia).
  pose proof (digits2_pos_bounds ma) as [_ Hma].
  pose proof (digits2_pos_bounds mb) as [_ Hmb].
  assert (Hpa : 2 ^ Zpos (digits2_pos ma) <= 2 ^ (M - ez)) by (apply Z.pow_le_mono_r; lia).
  assert (Hpb : 2 ^ Zpos (digits2_pos mb) <= 2 ^ (M - ez)) by (apply Z.pow_le_mono_r; lia).
  assert (Hn : 0 <= M - ez) by lia.
  assert (Zdigits2 (if sub then cond_Zopp sx (Zpos ma) - cond_Zopp sy (Zpos mb)
                    else cond_Zopp sx (Zpos ma) + cond_Zopp sy (Zpos mb)) <= M - ez + 1); [| lia].
  apply Zdigits2_abs_le; [| lia].
  rewrite Z.pow_add_r by lia.
  destruct sub, sx, sy; cbn [cond_Zopp]; lia.
Qed.

Lemma add_small (A : Z) (x y : PyFloat.float) :
  small A x -> small A y -> -1074 <= A + 1 -> A + 1 <= 52 ->
  small (A + 2) (PyFloat.add x y).
Proof.
  intros Hx Hy H1 H2.
  destruct x as [sx | sx | | sx mx ex], y as [sy | sy | | sy my ey];
    cbn [small] in Hx, Hy; try contradiction.
  - destruct sx, sy; exact I.
  - unfold PyFloat.add, PyFloat.sub. cbn [SFadd SFsub small]. lia.
  - unfold PyFloat.add, PyFloat.sub. cbn [SFadd SFsub small]. lia.
  - destruct Hx as [Hex Hmx], Hy as [Hey Hmy].
    unfold PyFloat.add. cbn [SFadd]. replace (A + 2) with (A + 1 + 1) by lia.
    apply binary_normalize_small; try lia.
    apply (aligned_sum_digits sx sy mx my ex ey A false); assumption.
Qed.

Lemma sub_small (A : Z) (x y : PyFloat.float) :
  small A x -> small A y -> -1074 <= A + 1 -> A + 1 <= 52 ->
  small (A + 2) (PyFloat.sub x y).
Proof.
  intros Hx Hy H1 H2.
  destruct x as [sx | sx | | sx mx ex], y as [sy | sy | | sy my ey];
    cbn [small] in Hx, Hy; try contradiction.
  - destruct sx, sy; exact I.
  - unfold PyFloat.add, PyFloat.sub. cbn [SFadd SFsub small]. lia.
  - unfold PyFloat.add, PyFloat.sub. cbn [SFadd SFsub small]. lia.
  - destruct Hx as [Hex Hmx], Hy as [Hey Hmy].
    unfold PyFloat.sub. cbn [SFsub]. replace (A + 2) with (A + 1 + 1) by lia.
    apply binary_normalize_small; try lia.
    apply (aligned_sum_digits sx sy mx my ex ey A true); assumption.
Qed.

Lemma div_core_bounds (mx my : positive) (ex ey : Z) :
  let t := Zpos (digits2_pos mx) + ex - (Zpos (digits2_pos my) + ey) in
  let '(q, e', l) := SFdiv_core_binary PyFloat.prec PyFloat.emax (Zpos mx) ex (Zpos my) ey in
  0 <= q /\ e' <= fexp64 t /\ Zdigits2 q + e' <= Z.max e' (t + 1).
Proof.
  intros t. unfold SFdiv_core_binary. cbn [Zdigits2]. rewrite fexp_eq. fold t.
  set (e' := Z.min (fexp64 t) (ex - ey)).
  set (s := ex - ey - e').
  assert (Hs : 0 <= s) by (subst s e'; lia).
  set (m' := match s with Z.pos _ => Z.shiftl (Zpos mx) s | 0 => Zpos mx | Z.neg _ => 0 end).
  assert (Hm' : m' = Zpos mx * 2 ^ s).
  { subst m'. destruct s as [| p | p] eqn:Es.
    - simpl. lia.
    - apply Z.shiftl_mul_pow2. lia.
    - lia. }
  destruct (Z.div_eucl m' (Zpos my)) as [q r] eqn:Hdiv.
  assert (Hq : q = m' / Zpos my) by (unfold Z.div; rewrite Hdiv; reflexivity).
  assert (Hm'pos : 0 <= m') by (rewrite Hm'; apply Z.mul_nonneg_nonneg; [lia | apply Z.pow_nonneg; lia]).
  assert (Hq0 : 0 <= q) by (rewrite Hq; apply Z.div_pos; lia).
  split; [exact Hq0 |]. split; [subst e'; lia |].
  set (n := Z.max 0 (Zpos (digits2_pos mx) + s - Zpos (digits2_pos my) + 1)).
  assert (Hqn : q < 2 ^ n).
  { rewrite Hq. apply Z.div_lt_upper_bound; [lia |].
    pose proof (digits2_pos_bounds mx) as [_ Hx].
    pose proof (digits2_pos_bounds my) as [Hy _].
    assert (H1 : m' < 2 ^ (Zpos (digits2_pos mx) + s)).
    { rewrite Hm', Z.pow_add_r by lia.
      apply Z.mul_lt_mono_pos_r; [apply Z.pow_pos_nonneg; lia | exact Hx]. }
    assert (H2 : 2 ^ (Zpos (digits2_pos mx) + s) <= 2 ^ (Zpos (digits2_pos my) - 1 + n))
      by (apply Z.pow_le_mono_r; subst n; lia).
    rewrite (Z.pow_add_r 2 (Zpos (digits2_pos my) - 1) n) in H2 by (subst n; lia).
    assert (H3 : 2 ^ (Zpos (digits2_pos my) - 1) * 2 ^ n <= Zpos my * 2 ^ n)
      by (apply Z.mul_le_mono_nonneg_r; [apply Z.pow_nonneg; lia | exact Hy]).
    lia. }
  assert (Hdq : Zdigits2 q <= n) by (apply Zdigits2_le; subst n; lia).
  subst n s t. lia.
Qed.

Lemma div_small (A L : Z) (x : PyFloat.float) (sy : bool) (my : positive) (ey : Z) :
  small A x -> L <= Zpos (digits2_pos my) + ey ->
  -1074 <= A - L + 1 -> A - L + 1 <= 52 ->
  small (A - L + 2) (PyFloat.div x (S754_finite sy my ey)).
Proof.
  intros Hx HL H1 H2.
  destruct x as [sx | sx | | sx mx ex]; cbn [small] in Hx; try contradiction.
  - exact I.
  - destruct Hx as [Hex Hmx]. unfold PyFloat.div. cbn [SFdiv].
    pose proof (div_core_bounds mx my ex ey) as H. cbv zeta in H.
    destruct (SFdiv_core_binary PyFloat.prec PyFloat.emax (Zpos mx) ex (Zpos my) ey) as [[q e'] l].
    destruct H as (Hq & He' & Hd). unfold fexp64 in He'.
    replace (A - L + 2) with (A - L + 1 + 1) by lia.
    apply binary_round_aux_small; lia.
Qed.

(** ** The gradient loop *)

Lemma create_gradient_spec (size : Z) (start_color end_color : rgb)
      (g : Z -> Z -> rgb) :
  (forall x y, 0 <= x < size -> 0 <= y < size ->
               gradient_pixel size start_color end_color x y = Ok (g x y)) ->
  exists img,
    create_gradient size start_color end_color = Ok img /\
    width img = size /\ height img = size /\
    forall x y, inside img x y -> getpixel img x y = g x y.
Proof.
  intros Hg.
  destruct (for_each_rows (fun x y _ => gradient_pixel size start_color end_color x y)
              (range size) (range size) (NoDup_range _) (NoDup_range _)
              (Image_new size size (0, 0, 0)))
    as (img & Hrun & Hw & Hh & Hin & _).
  { intros x y Hx Hy. rewrite In_range in Hx, Hy. eexists. now apply Hg. }
  exists img. split; [exact Hrun |]. split; [exact Hw |]. split; [exact Hh |].
  intros x y [Hx Hy]. rewrite Hw in Hx. rewrite Hh in Hy. simpl in Hx, Hy.
  specialize (Hin x y (proj2 (In_range _ _) Hx) (proj2 (In_range _ _) Hy)).
  rewrite Hg in Hin by assumption. now inversion Hin.
Qed.

(** The colour depends on [x + y] only. *)
Lemma gradient_pixel_diagonal (size : Z) (c0 c1 : rgb) (x y : Z) :
  gradient_pixel size c0 c1 x y = gradient_pixel size c0 c1 (x + y) 0.
Proof.
  unfold gradient_pixel. now rewrite Z.add_0_r.
Qed.

Lemma gradient_claimed_diagonal (size : Z) (c0 c1 : rgb) (x y : Z) :
  gradient_claimed size c0 c1 x y = gradient_claimed size c0 c1 (x + y) 0.
Proof.
  unfold gradient_claimed, interpolate_claimed. now rewrite Z.add_0_r.
Qed.

Lemma rgb_betweenb_spec (c0 c1 p : rgb) :
  rgb_betweenb c0 c1 p = true -> rgb_between c0 c1 p.
Proof.
  unfold rgb_betweenb, rgb_between, betweenb, between.
  rewrite !andb_true_iff, !Z.leb_le. tauto.
Qed.

(** ** The icon's own gradient *)

(** Every diagonal of the 1024 x 1024 gradient, evaluated: the doubles give
    the exact interpolation, and it lies between the endpoints. *)
Lemma icon_gradient_table :
  forallb (fun k =>
             returns rgb_eqb
                     (gradient_pixel ICON_SIZE GRADIENT_START GRADIENT_END k 0)
                     (gradient_claimed ICON_SIZE GRADIENT_START GRADIENT_END k 0)
             && rgb_betweenb GRADIENT_START GRADIENT_END
                  (gradient_claimed ICON_SIZE GRADIENT_START GRADIENT_END k 0))
          (range (2 * ICON_SIZE - 1)) = true.
Proof. vm_compute. reflexivity. Qed.

Lemma icon_gradient_pixel (x y : Z) :
  0 <= x < ICON_SIZE -> 0 <= y < ICON_SIZE ->
  gradient_pixel ICON_SIZE GRADIENT_START GRADIENT_END x y
  = Ok (gradient_claimed ICON_SIZE GRADIENT_START GRADIENT_END x y)
  /\ rgb_between GRADIENT_START GRADIENT_END
       (gradient_claimed ICON_SIZE GRADIENT_START GRADIENT_END x y).
Proof.
  intros Hx Hy.
  rewrite gradient_pixel_diagonal, gradient_claimed_diagonal.
  pose proof (forall_range _ _ icon_gradient_table (x + y)) as H.
  rewrite andb_true_iff in H. destruct H as [H1 H2]; [lia |].
  split; [apply (returns_Ok rgb_eqb _ _ rgb_eqb_eq H1) | apply rgb_betweenb_spec, H2].
Qed.

Lemma icon_gradient :
  exists bg,
    create_gradient ICON_SIZE GRADIENT_START GRADIENT_END = Ok bg /\
    width bg = ICON_SIZE /\ height bg = ICON_SIZE /\
    forall x y, inside bg x y ->
      getpixel bg x y = gradient_claimed ICON_SIZE GRADIENT_START GRADIENT_END x y
      /\ rgb_between GRADIENT_START GRADIENT_END (getpixel bg x y).
Proof.
  destruct (create_gradient_spec ICON_SIZE GRADIENT_START GRADIENT_END
              (gradient_claimed ICON_SIZE GRADIENT_START GRADIENT_END))
    as (bg & Hrun & Hw & Hh & Hpx).
  { intros x y Hx Hy. now apply icon_gradient_pixel. }
  exists bg. repeat (split; [assumption |]).
  intros x y Hin. rewrite Hpx by assumption. split; [reflexivity |].
  destruct Hin as [Hx Hy]. rewrite Hw in Hx. rewrite Hh in Hy.
  now apply icon_gradient_pixel.
Qed.

(** ** The compositor *)

Section Compositor.

Variable thumbnail : Image rgba -> Z * Z -> Image rgba.
Variable mix : Z -> Z -> Z -> Z.

(** What [main] saves, in terms of the gradient and of the recolored logo. *)
Lemma main_saves (logo : pil_image) (bg : Image rgb) (logo_white : Image rgba) :
  create_gradient ICON_SIZE GRADIENT_START GRADIENT_END = Ok bg ->
  convert_to_white_preserve_shape logo = Ok logo_white ->
  let pasted := thumbnail logo_white (LOGO_SIZE, LOGO_SIZE) in
  let logo_x := (ICON_SIZE - width pasted) / 2 in
  let logo_y := (ICON_SIZE - height pasted) / 2 in
  exists out,
    main thumbnail mix (Some logo) = Ok (Some (ImRGB out)) /\
    width out = width bg /\ height out = height bg /\
    (forall x y, in_box logo_x logo_y (width pasted) (height pasted) x y = true ->
       getpixel out x y
       = mix_over mix (getpixel bg x y) (getpixel pasted (x - logo_x) (y - logo_y))) /\
    (forall x y, in_box logo_x logo_y (width pasted) (height pasted) x y = false ->
       getpixel out x y = getpixel bg x y).
Proof.
  intros Hbg Hlogo pasted logo_x logo_y.
  unfold main. rewrite Hbg, Hlogo. cbn [bind].
  fold pasted. fold logo_x. fold logo_y.
  eexists. split; [reflexivity |].
  unfold convert_RGB, paste_mask, convert_RGBA. cbn [getpixel width height].
  split; [reflexivity |]. split; [reflexivity |]. split.
  - intros x y Hbox. rewrite Hbox.
    destruct (getpixel bg x y) as [[r0 g0] b0].
    destruct (getpixel pasted (x - logo_x) (y - logo_y)) as [[[r1 g1] b1] a1].
    reflexivity.
  - intros x y Hbox. rewrite Hbox.
    destruct (getpixel bg x y) as [[r0 g0] b0]. reflexivity.
Qed.

End Compositor.

(** C8.  For every 8-bit logo, [main] saves an RGB image (no alpha channel)
    of the size of the gradient canvas, 1024 x 1024; the logo left by
    [thumbnail] is pasted at the offset (canvas size - logo size) floor-divided
    by 2 on each axis, where each pixel is the canvas pixel mixed with the logo
    pixel under the logo's alpha; and every pixel outside the pasted logo's box
    is the pixel of the gradient background. *)
Theorem main_composite_frame (thumbnail : Image rgba -> Z * Z -> Image rgba)
        (mix : Z -> Z -> Z -> Z) (logo : pil_image) :
  pil_ok logo ->
  exists bg logo_white out,
    create_gradient ICON_SIZE GRADIENT_START GRADIENT_END = Ok bg /\
    convert_to_white_preserve_shape logo = Ok logo_white /\
    main thumbnail mix (Some logo) = Ok (Some (ImRGB out)) /\
    let pasted := thumbnail logo_white (LOGO_SIZE, LOGO_SIZE) in
    let logo_x := (ICON_SIZE - width pasted) / 2 in
    let logo_y := (ICON_SIZE - height pasted) / 2 in
    width out = width bg /\ height out = height bg /\
    width out = ICON_SIZE /\ height out = ICON_SIZE /\
    2 * logo_x <= ICON_SIZE - width pasted <= 2 * logo_x + 1 /\
    2 * logo_y <= ICON_SIZE - height pasted <= 2 * logo_y + 1 /\
    (forall x y, in_box logo_x logo_y (width pasted) (height pasted) x y = true ->
       getpixel out x y
       = mix_over mix (getpixel bg x y) (getpixel pasted (x - logo_x) (y - logo_y))) /\
    (forall x y, in_box logo_x logo_y (width pasted) (height pasted) x y = false ->
       getpixel out x y = getpixel bg x y).
Proof.
  intros Hok.
  destruct icon_gradient as (bg & Hbg & Hw & Hh & _).
  destruct (convert_to_white_preserve_shape_spec logo Hok) as (logo_white & Hlogo & _).
  destruct (main_saves thumbnail mix logo bg logo_white Hbg Hlogo)
    as (out & Hmain & Hwo & Hho & Hin & Hout).
  exists bg, logo_white, out.
  split; [exact Hbg |]. split; [exact Hlogo |]. split; [exact Hmain |].
  cbv zeta. split; [exact Hwo |]. split; [exact Hho |].
  split; [congruence |]. split; [congruence |].
  split; [pose proof (Z.div_mod (ICON_SIZE - width (thumbnail logo_white (LOGO_SIZE, LOGO_SIZE))) 2 ltac:(lia));
          pose proof (Z.mod_pos_bound (ICON_SIZE - width (thumbnail logo_white (LOGO_SIZE, LOGO_SIZE))) 2 ltac:(lia)); lia |].
  split; [pose proof (Z.div_mod (ICON_SIZE - height (thumbnail logo_white (LOGO_SIZE, LOGO_SIZE))) 2 ltac:(lia));
          pose proof (Z.mod_pos_bound (ICON_SIZE - height (thumbnail logo_white (LOGO_SIZE, LOGO_SIZE))) 2 ltac:(lia)); lia |].
  split; assumption.
Qed.

Lemma main_composite_frame_witness :
  exists bg logo_white out,
    create_gradient ICON_SIZE GRADIENT_START GRADIENT_END = Ok bg /\
    convert_to_white_preserve_shape two_pixel_logo = Ok logo_white /\
    main thumbnail_unchanged blend8 (Some two_pixel_logo) = Ok (Some (ImRGB out)) /\
    let pasted := thumbnail_unchanged logo_white (LOGO_SIZE, LOGO_SIZE) in
    let logo_x := (ICON_SIZE - width pasted) / 2 in
    let logo_y := (ICON_SIZE - height pasted) / 2 in
    width out = width bg /\ height out = height bg /\
    width out = ICON_SIZE /\ height out = ICON_SIZE /\
    2 * logo_x <= ICON_SIZE - width pasted <= 2 * logo_x + 1 /\
    2 * logo_y <= ICON_SIZE - height pasted <= 2 * logo_y + 1 /\
    (forall x y, in_box logo_x logo_y (width pasted) (height pasted) x y = true ->
       getpixel out x y
       = mix_over blend8 (getpixel bg x y) (getpixel pasted (x - logo_x) (y - logo_y))) /\
    (forall x y, in_box logo_x logo_y (width pasted) (height pasted) x y = false ->
       getpixel out x y = getpixel bg x y).
Proof.
  apply (main_composite_frame thumbnail_unchanged blend8 two_pixel_logo).
  solve_two_pixel_ok.
Defined.

(** Two one-pixel logos that [convert_blue_to_white] does not tell apart
    give different icons. *)
Lemma blue_policy_not_used :
  result_pixel (convert_blue_to_white (one_pixel (255, 255, 212, 255))) 0 0
  = result_pixel (convert_blue_to_white (one_pixel (255, 255, 255, 255))) 0 0
  /\ exists out out',
       main thumbnail_unchanged blend8 (Some (one_pixel (255, 255, 212, 255)))
         = Ok (Some (ImRGB out)) /\
       main thumbnail_unchanged blend8 (Some (one_pixel (255, 255, 255, 255)))
         = Ok (Some (ImRGB out')) /\
       getpixel out 511 511 = (125, 117, 204) /\
       getpixel out' 511 511 = (109, 100, 198).
Proof.
  split; [vm_compute; reflexivity |].
  destruct icon_gradient as (bg & Hbg & Hw & Hh & Hpx).
  assert (Hcentre : getpixel bg 511 511 = (109, 100, 198)).
  { assert (Hin511 : inside bg 511 511)
      by (unfold inside; rewrite Hw, Hh; unfold ICON_SIZE; lia).
    destruct (Hpx 511 511 Hin511) as [-> _]. vm_compute. reflexivity. }
  assert (Hl : convert_to_white_preserve_shape (one_pixel (255, 255, 212, 255))
               = Ok (putpixel (Image_new 1 1 (255, 255, 212, 255)) 0 0 (255, 255, 255, 28)))
    by (vm_compute; reflexivity).
  assert (Hl' : convert_to_white_preserve_shape (one_pixel (255, 255, 255, 255))
                = Ok (putpixel (Image_new 1 1 (255, 255, 255, 255)) 0 0 (0, 0, 0, 0)))
    by (vm_compute; reflexivity).
  destruct (main_saves thumbnail_unchanged blend8 _ bg _ Hbg Hl)
    as (out & Hmain & _ & _ & Hin & _).
  destruct (main_saves thumbnail_unchanged blend8 _ bg _ Hbg Hl')
    as (out' & Hmain' & _ & _ & Hin' & _).
  exists out, out'. split; [exact Hmain |]. split; [exact Hmain' |].
  split.
  - rewrite (Hin 511 511) by (vm_compute; reflexivity). rewrite Hcentre.
    vm_compute. reflexivity.
  - rewrite (Hin' 511 511) by (vm_compute; reflexivity). rewrite Hcentre.
    vm_compute. reflexivity.
Qed.

(** C10.  The icon [main] saves is the gradient with the thumbnail of a
    recolored logo pasted on it, and every pixel of that recolored logo is
    given by the non-white-detection rule; [convert_blue_to_white] plays no
    part: two logos it maps to the same pixels give different icons. *)
Theorem main_recolors_by_shape_rule :
  (forall (thumbnail : Image rgba -> Z * Z -> Image rgba) (mix : Z -> Z -> Z -> Z)
          (logo : pil_image),
      pil_ok logo ->
      exists bg logo_white,
        create_gradient ICON_SIZE GRADIENT_START GRADIENT_END = Ok bg /\
        convert_to_white_preserve_shape logo = Ok logo_white /\
        width logo_white = pil_width logo /\ height logo_white = pil_height logo /\
        (forall x y, inside logo_white x y ->
           getpixel logo_white x y
           = white_shape_truncating (getpixel (convert_RGBA logo) x y)) /\
        let pasted := thumbnail logo_white (LOGO_SIZE, LOGO_SIZE) in
        main thumbnail mix (Some logo)
        = Ok (Some (ImRGB (convert_RGB (ImRGBA
              (paste_mask mix (convert_RGBA (ImRGB bg)) pasted
                 ((ICON_SIZE - width pasted) / 2, (ICON_SIZE - height pasted) / 2)
                 pasted))))))
  /\
  (result_pixel (convert_blue_to_white (one_pixel (255, 255, 212, 255))) 0 0
   = result_pixel (convert_blue_to_white (one_pixel (255, 255, 255, 255))) 0 0
   /\ exists out out',
        main thumbnail_unchanged blend8 (Some (one_pixel (255, 255, 212, 255)))
          = Ok (Some (ImRGB out)) /\
        main thumbnail_unchanged blend8 (Some (one_pixel (255, 255, 255, 255)))
          = Ok (Some (ImRGB out')) /\
        getpixel out 511 511 <> getpixel out' 511 511).
Proof.
  split.
  - intros thumbnail mix logo Hok.
    destruct icon_gradient as (bg & Hbg & _).
    destruct (convert_to_white_preserve_shape_spec logo Hok)
      as (logo_white & Hlogo & Hw & Hh & Hpx).
    exists bg, logo_white.
    split; [exact Hbg |]. split; [exact Hlogo |].
    split; [exact Hw |]. split; [exact Hh |]. split; [exact Hpx |].
    cbv zeta. unfold main. rewrite Hbg, Hlogo. reflexivity.
  - destruct blue_policy_not_used as (Hsame & out & out' & Hmain & Hmain' & Hp & Hp').
    split; [exact Hsame |]. exists out, out'.
    split; [exact Hmain |]. split; [exact Hmain' |].
    rewrite Hp, Hp'. discriminate.
Qed.

Lemma main_recolors_by_shape_rule_witness :
  exists bg logo_white,
    create_gradient ICON_SIZE GRADIENT_START GRADIENT_END = Ok bg /\
    convert_to_white_preserve_shape two_pixel_logo = Ok logo_white /\
    width logo_white = pil_width two_pixel_logo /\
    height logo_white = pil_height two_pixel_logo /\
    (forall x y, inside logo_white x y ->
       getpixel logo_white x y
       = white_shape_truncating (getpixel (convert_RGBA two_pixel_logo) x y)) /\
    let pasted := thumbnail_unchanged logo_white (LOGO_SIZE, LOGO_SIZE) in
    main thumbnail_unchanged blend8 (Some two_pixel_logo)
    = Ok (Some (ImRGB (convert_RGB (ImRGBA
          (paste_mask blend8 (convert_RGBA (ImRGB bg)) pasted
             ((ICON_SIZE - width pasted) / 2, (ICON_SIZE - height pasted) / 2)
             pasted))))).
Proof.
  apply (proj1 main_recolors_by_shape_rule thumbnail_unchanged blend8 two_pixel_logo).
  solve_two_pixel_ok.
Defined.

(** ** The gradient for every size *)

Lemma to_int_small (M : Z) (x : PyFloat.float) :
  small M x -> exists v, PyFloat.to_int x = Ok v.
Proof.
  destruct x; cbn [small PyFloat.to_int]; try contradiction; eauto.
Qed.

Lemma channel_small (c : Z) : channel_ok c -> small 8 (PyFloat.of_int c).
Proof.
  intros [H0 H255].
  apply (small_weaken (Zdigits2 c)).
  - apply Zdigits2_le; [change (2 ^ 8) with 256 |]; lia.
  - apply of_int_small. change (2 ^ 53) with 9007199254740992. lia.
Qed.

Lemma ratio_small (size k : Z) :
  1 <= size < 2 ^ 52 -> 0 <= k < 2 * size ->
  small 2 (PyFloat.div (PyFloat.of_int k) (PyFloat.of_int (2 * size))).
Proof.
  intros Hsize Hk.
  assert (H53 : 2 * size < 2 ^ 53) by (change (2 ^ 53) with (2 * 2 ^ 52); lia).
  destruct (of_int_finite (2 * size)) as (m & e & -> & He & Hmag); [lia |].
  set (L := Zdigits2 (2 * size)) in *.
  assert (HL : 0 <= L) by apply Zdigits2_nonneg.
  replace 2 with (L - L + 2) by lia.
  apply div_small; try lia.
  apply (small_weaken (Zdigits2 k)); [apply Zdigits2_mono; lia |].
  apply of_int_small. lia.
Qed.

Lemma gradient_channel_total (ratio : PyFloat.float) (c0 c1 : Z) :
  small 2 ratio -> channel_ok c0 -> channel_ok c1 ->
  exists v, gradient_channel ratio c0 c1 = Ok v.
Proof.
  intros Hr H0 H1. unfold gradient_channel.
  apply (to_int_small 15). change 15 with (13 + 2).
  apply add_small; try lia.
  - change 13 with (8 + 4 + 1). apply mul_small; try lia.
    + apply channel_small, H0.
    + change 4 with (2 + 2). apply sub_small; try lia; [| exact Hr].
      apply (small_weaken 1); [lia |].
      apply (of_int_small 1). change (2 ^ 53) with 9007199254740992. lia.
  - apply (small_weaken (8 + 2 + 1)); [lia |].
    apply mul_small; try lia; [apply channel_small, H1 | exact Hr].
Qed.

Lemma gradient_pixel_total (size : Z) (c0 c1 : rgb) (x y : Z) :
  1 <= size < 2 ^ 52 -> rgb_ok c0 -> rgb_ok c1 ->
  0 <= x < size -> 0 <= y < size ->
  gradient_pixel size c0 c1 x y = Ok (gradient_value size c0 c1 x y).
Proof.
  intros Hsize Hc0 Hc1 Hx Hy.
  assert (H : exists p, gradient_pixel size c0 c1 x y = Ok p).
  { destruct c0 as [[r0 g0] b0], c1 as [[r1 g1] b1].
    destruct Hc0 as (Hr0 & Hg0 & Hb0), Hc1 as (Hr1 & Hg1 & Hb1).
    unfold gradient_pixel, PyFloat.truediv.
    destruct (Z.eqb_spec (2 * size) 0) as [Hz |]; [lia |]. cbn [bind].
    pose proof (ratio_small size (x + y) Hsize ltac:(lia)) as Hr.
    destruct (gradient_channel_total _ r0 r1 Hr Hr0 Hr1) as [r ->].
    destruct (gradient_channel_total _ g0 g1 Hr Hg0 Hg1) as [g ->].
    destruct (gradient_channel_total _ b0 b1 Hr Hb0 Hb1) as [b ->].
    cbn [bind]. eauto. }
  destruct H as [p Hp]. unfold gradient_value. rewrite Hp. reflexivity.
Qed.







(** * Further properties of the recolorizer *)

Lemma inside_convert_RGBA (logo : pil_image) (out : Image rgba) (x y : Z) :
  width out = pil_width logo -> height out = pil_height logo ->
  inside out x y -> inside (convert_RGBA logo) x y.
Proof.
  intros Hw Hh [Hx Hy]. destruct (convert_RGBA_size logo) as [Hw' Hh'].
  unfold inside. rewrite Hw', Hh', <- Hw, <- Hh. split; assumption.
Qed.

Lemma blue_to_white_truncating_ok (p : rgba) :
  rgba_ok p -> rgba_ok (blue_to_white_truncating p).
Proof.
  destruct p as [[[r g] b] a]. intros (Hr & Hg & Hb & _).
  unfold channel_ok in *. unfold blue_to_white_truncating.
  destruct (Z.ltb_spec 720 (r + g + b)); cbn [rgba_ok]; unfold channel_ok;
    repeat split; try lia.
  assert (0 <= (765 - (r + g + b)) / 3) by (apply Z.div_pos; lia).
  assert (0 <= 3 * ((765 - (r + g + b)) / 3) / 2) by (apply Z.div_pos; lia).
  lia.
Qed.

Lemma white_shape_truncating_ok (p : rgba) :
  rgba_ok p -> rgba_ok (white_shape_truncating p).
Proof.
  destruct p as [[[r g] b] a]. intros (Hr & Hg & Hb & _).
  unfold channel_ok in *. unfold white_shape_truncating.
  destruct ((245 <? r) && (245 <? g) && (245 <? b));
    [cbn [rgba_ok]; unfold channel_ok; lia |].
  destruct (Z.leb_spec (Z.min 255 (2 * (255 - r + (255 - g) + (255 - b)) / 3)) 10);
    cbn [rgba_ok]; unfold channel_ok; repeat split; lia.
Qed.

Lemma blue_to_white_truncating_twice (p : rgba) :
  blue_to_white_truncating (blue_to_white_truncating p) = (255, 255, 255, 0).
Proof.
  destruct p as [[[r g] b] a]. unfold blue_to_white_truncating at 2.
  destruct (720 <? r + g + b); reflexivity.
Qed.

Lemma white_shape_truncating_cases (p : rgba) :
  white_shape_truncating p = (0, 0, 0, 0) \/
  exists o, 10 < o <= 255 /\ white_shape_truncating p = (255, 255, 255, o).
Proof.
  destruct p as [[[r g] b] a]. unfold white_shape_truncating.
  destruct ((245 <? r) && (245 <? g) && (245 <? b)); [now left |].
  destruct (Z.leb_spec (Z.min 255 (2 * (255 - r + (255 - g) + (255 - b)) / 3)) 10)
    as [Hle | Hgt]; [now left | right].
  eexists. split; [| reflexivity]. lia.
Qed.

Lemma white_shape_truncating_twice (p : rgba) :
  white_shape_truncating (white_shape_truncating p)
  = if alpha (white_shape_truncating p) =? 0 then (255, 255, 255, 255)
    else (0, 0, 0, 0).
Proof.
  destruct (white_shape_truncating_cases p) as [-> | (o & Ho & ->)].
  - reflexivity.
  - cbn [alpha]. destruct (Z.eqb_spec o 0); [lia | reflexivity].
Qed.

(** X1.  Applying [convert_blue_to_white] to its own output erases the logo:
    every pixel becomes transparent white. *)
Theorem blue_to_white_twice_erases (logo : pil_image) :
  pil_ok logo ->
  exists once twice,
    convert_blue_to_white logo = Ok once /\
    convert_blue_to_white (ImRGBA once) = Ok twice /\
    width twice = pil_width logo /\ height twice = pil_height logo /\
    forall x y, inside twice x y -> getpixel twice x y = (255, 255, 255, 0).
Proof.
  intros Hok.
  destruct (convert_blue_to_white_spec logo Hok) as (once & Hrun & Hw & Hh & Hpx).
  assert (Hok1 : pil_ok (ImRGBA once)).
  { intros x y Hin. rewrite Hpx by assumption.
    apply blue_to_white_truncating_ok, convert_RGBA_ok; [assumption |].
    now apply (inside_convert_RGBA logo once). }
  destruct (convert_blue_to_white_spec (ImRGBA once) Hok1)
    as (twice & Hrun2 & Hw2 & Hh2 & Hpx2).
  cbn [pil_width pil_height convert_RGBA] in *.
  exists once, twice. split; [exact Hrun |]. split; [exact Hrun2 |].
  split; [congruence |]. split; [congruence |].
  intros x y Hin. rewrite Hpx2 by assumption.
  rewrite Hpx by (unfold inside in *; rewrite <- Hw2, <- Hh2; exact Hin).
  apply blue_to_white_truncating_twice.
Qed.

Lemma blue_to_white_twice_erases_witness :
  exists once twice,
    convert_blue_to_white two_pixel_logo = Ok once /\
    convert_blue_to_white (ImRGBA once) = Ok twice /\
    width twice = pil_width two_pixel_logo /\
    height twice = pil_height two_pixel_logo /\
    forall x y, inside twice x y -> getpixel twice x y = (255, 255, 255, 0).
Proof.
  apply (blue_to_white_twice_erases two_pixel_logo). solve_two_pixel_ok.
Defined.

(** X2.  Applying [convert_to_white_preserve_shape] to its own output inverts
    the logo: every transparent pixel becomes opaque white and every visible
    pixel becomes transparent. *)
Theorem white_shape_twice_inverts (logo : pil_image) :
  pil_ok logo ->
  exists once twice,
    convert_to_white_preserve_shape logo = Ok once /\
    convert_to_white_preserve_shape (ImRGBA once) = Ok twice /\
    width twice = pil_width logo /\ height twice = pil_height logo /\
    forall x y, inside twice x y ->
      (alpha (getpixel once x y) = 0 -> getpixel twice x y = (255, 255, 255, 255)) /\
      (alpha (getpixel once x y) <> 0 -> getpixel twice x y = (0, 0, 0, 0)).
Proof.
  intros Hok.
  destruct (convert_to_white_preserve_shape_spec logo Hok)
    as (once & Hrun & Hw & Hh & Hpx).
  assert (Hok1 : pil_ok (ImRGBA once)).
  { intros x y Hin. rewrite Hpx by assumption.
    apply white_shape_truncating_ok, convert_RGBA_ok; [assumption |].
    now apply (inside_convert_RGBA logo once). }
  destruct (convert_to_white_preserve_shape_spec (ImRGBA once) Hok1)
    as (twice & Hrun2 & Hw2 & Hh2 & Hpx2).
  cbn [pil_width pil_height convert_RGBA] in *.
  exists once, twice. split; [exact Hrun |]. split; [exact Hrun2 |].
  split; [congruence |]. split; [congruence |].
  intros x y Hin. rewrite Hpx2 by assumption.
  assert (Hin1 : inside once x y)
    by (unfold inside in *; rewrite <- Hw2, <- Hh2; exact Hin).
  rewrite Hpx by assumption. rewrite white_shape_truncating_twice.
  destruct (Z.eqb_spec (alpha (white_shape_truncating (getpixel (convert_RGBA logo) x y))) 0);
    split; intros; try reflexivity; contradiction.
Qed.

Lemma white_shape_twice_inverts_witness :
  exists once twice,
    convert_to_white_preserve_shape two_pixel_logo = Ok once /\
    convert_to_white_preserve_shape (ImRGBA once) = Ok twice /\
    width twice = pil_width two_pixel_logo /\
    height twice = pil_height two_pixel_logo /\
    forall x y, inside twice x y ->
      (alpha (getpixel once x y) = 0 -> getpixel twice x y = (255, 255, 255, 255)) /\
      (alpha (getpixel once x y) <> 0 -> getpixel twice x y = (0, 0, 0, 0)).
Proof.
  apply (white_shape_twice_inverts two_pixel_logo). solve_two_pixel_ok.
Defined.

Lemma blue_to_white_truncating_color (p q : rgba) :
  color_of p = color_of q -> blue_to_white_truncating p = blue_to_white_truncating q.
Proof.
  destruct p as [[[r g] b] a], q as [[[r' g'] b'] a']. cbn [color_of].
  intros H. inversion H. reflexivity.
Qed.

Lemma white_shape_truncating_color (p q : rgba) :
  color_of p = color_of q -> white_shape_truncating p = white_shape_truncating q.
Proof.
  destruct p as [[[r g] b] a], q as [[[r' g'] b'] a']. cbn [color_of].
  intros H. inversion H. reflexivity.
Qed.

(** X3.  Neither policy looks at the alpha channel of its input: two RGBA logos
    with the same colour channels are recolored to the same pixels, so
    transparency already present in a logo is discarded. *)
Theorem recolor_ignores_input_alpha (a b : Image rgba) :
  pil_ok (ImRGBA a) -> pil_ok (ImRGBA b) ->
  width a = width b -> height a = height b ->
  (forall x y, inside a x y -> color_of (getpixel a x y) = color_of (getpixel b x y)) ->
  (exists out_a out_b,
     convert_blue_to_white (ImRGBA a) = Ok out_a /\
     convert_blue_to_white (ImRGBA b) = Ok out_b /\
     forall x y, inside a x y -> getpixel out_a x y = getpixel out_b x y)
  /\
  (exists out_a out_b,
     convert_to_white_preserve_shape (ImRGBA a) = Ok out_a /\
     convert_to_white_preserve_shape (ImRGBA b) = Ok out_b /\
     forall x y, inside a x y -> getpixel out_a x y = getpixel out_b x y).
Proof.
  intros Ha Hb Hw Hh Hcolor.
  assert (Hab : forall x y, inside a x y -> inside b x y)
    by (unfold inside; intros x y; rewrite <- Hw, <- Hh; trivial).
  split.
  - destruct (convert_blue_to_white_spec _ Ha) as (oa & Hra & Hwa & Hha & Hpa).
    destruct (convert_blue_to_white_spec _ Hb) as (ob & Hrb & Hwb & Hhb & Hpb).
    cbn [pil_width pil_height convert_RGBA] in *.
    exists oa, ob. split; [exact Hra |]. split; [exact Hrb |].
    intros x y Hin.
    rewrite Hpa by (unfold inside in *; rewrite Hwa, Hha; exact Hin).
    rewrite Hpb by (specialize (Hab x y Hin); unfold inside in *; rewrite Hwb, Hhb; exact Hab).
    apply blue_to_white_truncating_color, Hcolor, Hin.
  - destruct (convert_to_white_preserve_shape_spec _ Ha) as (oa & Hra & Hwa & Hha & Hpa).
    destruct (convert_to_white_preserve_shape_spec _ Hb) as (ob & Hrb & Hwb & Hhb & Hpb).
    cbn [pil_width pil_height convert_RGBA] in *.
    exists oa, ob. split; [exact Hra |]. split; [exact Hrb |].
    intros x y Hin.
    rewrite Hpa by (unfold inside in *; rewrite Hwa, Hha; exact Hin).
    rewrite Hpb by (specialize (Hab x y Hin); unfold inside in *; rewrite Hwb, Hhb; exact Hab).
    apply white_shape_truncating_color, Hcolor, Hin.
Qed.

Lemma recolor_ignores_input_alpha_witness :
  (exists out_a out_b,
     convert_blue_to_white (ImRGBA opaque_dark) = Ok out_a /\
     convert_blue_to_white (ImRGBA hidden_dark) = Ok out_b /\
     forall x y, inside opaque_dark x y -> getpixel out_a x y = getpixel out_b x y)
  /\
  (exists out_a out_b,
     convert_to_white_preserve_shape (ImRGBA opaque_dark) = Ok out_a /\
     convert_to_white_preserve_shape (ImRGBA hidden_dark) = Ok out_b /\
     forall x y, inside opaque_dark x y -> getpixel out_a x y = getpixel out_b x y).
Proof.
  apply (recolor_ignores_input_alpha opaque_dark hidden_dark).
  - intros x y _. simpl. unfold channel_ok. lia.
  - intros x y _. simpl. unfold channel_ok. lia.
  - reflexivity.
  - reflexivity.
  - intros x y _. reflexivity.
Defined.





Lemma white_shape_alpha_range (p : rgba) :
  rgba_ok p ->
  let a := alpha (white_shape_truncating p) in
  (a = 0 \/ 11 <= a <= 255) /\
  (a = 255 <-> sum_rgb (color_of p) <= 382).
Proof.
  destruct p as [[[r g] b] a0]. intros (Hr & Hg & Hb & _). unfold channel_ok in *.
  unfold color_of, sum_rgb, red, green, blue. cbv zeta.
  unfold white_shape_truncating.
  set (d := 255 - r + (255 - g) + (255 - b)).
  assert (Hk : 3 * (2 * d / 3) <= 2 * d < 3 * (2 * d / 3) + 3).
  { pose proof (Z.div_mod (2 * d) 3 ltac:(lia)).
    pose proof (Z.mod_pos_bound (2 * d) 3 ltac:(lia)). lia. }
  destruct ((245 <? r) && (245 <? g) && (245 <? b)) eqn:Hbg.
  - rewrite !andb_true_iff, !Z.ltb_lt in Hbg. cbn [alpha]. subst d. lia.
  - destruct (Z.leb_spec (Z.min 255 (2 * d / 3)) 10); cbn [alpha]; subst d; lia.
Qed.



(** * Further properties of the trimmer *)

Lemma range_down_cons (start stop : Z) :
  stop < start -> range_down start stop = start :: range_down (start - 1) stop.
Proof.
  intros Hlt. unfold range_down.
  replace (Z.to_nat (start - stop)) with (S (Z.to_nat (start - 1 - stop))) by lia.
  cbn [seq map]. f_equal; [lia |].
  rewrite <- seq_shift, map_map. apply map_ext. intros i. lia.
Qed.

Lemma range_down_nil (start stop : Z) : start <= stop -> range_down start stop = [].
Proof.
  intros Hle. unfold range_down.
  replace (Z.to_nat (start - stop)) with 0%nat by lia. reflexivity.
Qed.

(** A downward scan returns the first content row it meets, plus one. *)
Lemma scan_range_down (img : Image rgb) (stop : Z) (n : nat) :
  forall start cb,
    Z.to_nat (start - stop) = n ->
    scan_rows img (range_down start stop) = Ok (Some cb) ->
    stop < cb - 1 <= start /\
    row_is_content img (cb - 1) = Ok true /\
    forall y, cb <= y <= start -> row_is_content img y = Ok false.
Proof.
  induction n as [| n IH]; intros start cb Hn Hscan.
  - rewrite range_down_nil in Hscan by lia. discriminate.
  - rewrite range_down_cons in Hscan by lia. cbn [scan_rows] in Hscan.
    destruct (row_is_content img start) as [[|] |] eqn:Hrow; cbn [bind] in Hscan;
      try discriminate.
    + inversion Hscan; subst cb. replace (start + 1 - 1) with start by lia.
      split; [lia |]. split; [exact Hrow |]. intros y Hy. lia.
    + destruct (IH (start - 1) cb ltac:(lia) Hscan) as (Hb & Hc & Hbelow).
      split; [lia |]. split; [exact Hc |].
      intros y Hy. destruct (Z.eq_dec y start) as [-> |]; [exact Hrow |].
      apply Hbelow. lia.
Qed.

Lemma find_content_bottom_found (img : Image rgb) (cb : Z) :
  find_content_bottom img = Ok (Some cb) ->
  bottom_is_white img = Ok true /\
  Z.max 0 (height img - 100) + 2 <= cb <= height img /\
  row_is_content img (cb - 1) = Ok true /\
  forall y, cb <= y < height img -> row_is_content img y = Ok false.
Proof.
  unfold find_content_bottom.
  destruct (bottom_is_white img) as [[|] |]; cbn [bind]; try discriminate.
  unfold scan_window. intros Hscan.
  destruct (scan_range_down img _ _ _ cb eq_refl Hscan) as (Hb & Hc & Hbelow).
  split; [reflexivity |]. split; [lia |]. split; [exact Hc |].
  intros y Hy. apply Hbelow. lia.
Qed.

(** X6.  When the trimmer finds a boundary, the bottom row is white, the boundary
    lies within the 99 rows above the bottom edge and is at least 2, the row
    just above it passes the content test, and every row from the boundary
    down to the bottom fails it. *)
Theorem content_boundary_is_lowest_content_row (img : Image rgb) (cb : Z) :
  find_content_bottom img = Ok (Some cb) ->
  bottom_is_white img = Ok true /\
  2 <= cb /\ height img - 98 <= cb <= height img /\
  row_is_content img (cb - 1) = Ok true /\
  forall y, cb <= y < height img -> row_is_content img y = Ok false.
Proof.
  intros H. destruct (find_content_bottom_found img cb H) as (Hw & Hb & Hc & Hbelow).
  split; [exact Hw |]. split; [lia |]. split; [lia |]. split; assumption.
Qed.

Lemma content_boundary_is_lowest_content_row_witness :
  bottom_is_white fifty_survivors_image = Ok true /\
  2 <= 20 /\ height fifty_survivors_image - 98 <= 20 <= height fifty_survivors_image /\
  row_is_content fifty_survivors_image (20 - 1) = Ok true /\
  forall y, 20 <= y < height fifty_survivors_image ->
            row_is_content fifty_survivors_image y = Ok false.
Proof.
  apply (content_boundary_is_lowest_content_row fifty_survivors_image 20).
  vm_compute. reflexivity.
Defined.

Lemma is_median_In (l : list Z) (v : Z) : is_median l v -> In v l.
Proof.
  intros (s & Hperm & _ & Hnth).
  apply (Permutation_in _ Hperm). eapply nth_error_In, Hnth.
Qed.

Lemma In_sample_pixels (img : Image rgb) (cb : Z) (p : rgb) :
  0 < cb <= height img ->
  In p (sample_pixels img cb) ->
  exists x y, inside img x y /\ Z.max 0 (cb - 20) <= y < cb /\ p = getpixel img x y.
Proof.
  intros Hcb. rewrite sample_pixels_rows by lia.
  rewrite in_flat_map. intros (y & Hy & Hp).
  rewrite in_map_iff in Hp. destruct Hp as (x & <- & Hx).
  rewrite In_range in Hx, Hy.
  exists x, (Z.max 0 (cb - 20) + y). unfold inside. repeat split; lia.
Qed.

(** X7.  The fill colour is a valid 8-bit colour, and each of its channels is the
    channel of some pixel of the sampled rows. *)
Theorem estimate_fill_from_sample (img : Image rgb) (cb : Z) :
  (forall x y, inside img x y -> rgb_ok (getpixel img x y)) ->
  0 < width img -> 0 < cb <= height img ->
  exists c,
    estimate_fill img cb = Ok c /\ rgb_ok c /\
    In (red c) (map red (sample_pixels img cb)) /\
    In (green c) (map green (sample_pixels img cb)) /\
    In (blue c) (map blue (sample_pixels img cb)).
Proof.
  intros Hok Hw Hcb.
  assert (Hsample : sample_pixels img cb <> []).
  { apply len_pos_nonempty. rewrite sample_pixels_len by lia. nia. }
  assert (Hsrc : exists src, src <> [] /\ incl src (sample_pixels img cb) /\
                             estimate_fill img cb = median_color src).
  { unfold estimate_fill. cbv zeta.
    destruct (Z.ltb_spec 50 (len (filter mid_tone (sample_pixels img cb)))).
    - exists (filter mid_tone (sample_pixels img cb)).
      split; [apply len_pos_nonempty; lia |]. split; [| reflexivity].
      intros p Hp. apply filter_In in Hp. tauto.
    - exists (sample_pixels img cb). split; [assumption |].
      split; [apply incl_refl | reflexivity]. }
  destruct Hsrc as (src & Hne & Hincl & ->).
  destruct (median_color_spec src Hne) as (r & g & b & -> & Mr & Mg & Mb).
  apply is_median_In in Mr, Mg, Mb.
  assert (Hmap : forall f : rgb -> Z, incl (map f src) (map f (sample_pixels img cb))).
  { intros f v Hv. rewrite in_map_iff in *. destruct Hv as (p & <- & Hp).
    exists p. split; [reflexivity | apply Hincl, Hp]. }
  assert (Hch : forall (f : rgb -> Z) v,
             (forall p, rgb_ok p -> channel_ok (f p)) ->
             In v (map f (sample_pixels img cb)) -> channel_ok v).
  { intros f v Hf Hv. rewrite in_map_iff in Hv. destruct Hv as (p & <- & Hp).
    destruct (In_sample_pixels img cb p Hcb Hp) as (x & y & Hin & _ & ->).
    apply Hf, Hok, Hin. }
  exists (r, g, b). split; [reflexivity |].
  apply Hmap in Mr, Mg, Mb. cbn [red green blue].
  split; [| auto].
  cbn [rgb_ok]. repeat split.
  - apply (Hch red r); [| exact Mr]. intros [[? ?] ?] (? & ? & ?). assumption.
  - apply (Hch red r); [| exact Mr]. intros [[? ?] ?] (? & ? & ?). assumption.
  - apply (Hch green g); [| exact Mg]. intros [[? ?] ?] (? & ? & ?). assumption.
  - apply (Hch green g); [| exact Mg]. intros [[? ?] ?] (? & ? & ?). assumption.
  - apply (Hch blue b); [| exact Mb]. intros [[? ?] ?] (? & ? & ?). assumption.
  - apply (Hch blue b); [| exact Mb]. intros [[? ?] ?] (? & ? & ?). assumption.
Qed.

Lemma estimate_fill_from_sample_witness :
  exists c,
    estimate_fill fifty_survivors_image 20 = Ok c /\ rgb_ok c /\
    In (red c) (map red (sample_pixels fifty_survivors_image 20)) /\
    In (green c) (map green (sample_pixels fifty_survivors_image 20)) /\
    In (blue c) (map blue (sample_pixels fifty_survivors_image 20)).
Proof.
  apply (estimate_fill_from_sample fifty_survivors_image 20).
  - intros x y _. cbn [getpixel fifty_survivors_image].
    destruct (20 <=? y); [cbn; unfold channel_ok; lia |].
    destruct ((x <? 5) && (y <? 10)); cbn; unfold channel_ok; lia.
  - simpl. lia.
  - simpl. lia.
Defined.

Lemma estimate_fill_total (img : Image rgb) (cb : Z) :
  0 < width img -> 0 < cb <= height img ->
  exists c, estimate_fill img cb = Ok c.
Proof.
  intros Hw Hcb. unfold estimate_fill. cbv zeta.
  assert (Hsample : sample_pixels img cb <> []).
  { apply len_pos_nonempty. rewrite sample_pixels_len by lia. nia. }
  destruct (Z.ltb_spec 50 (len (filter mid_tone (sample_pixels img cb)))).
  - destruct (median_color_spec (filter mid_tone (sample_pixels img cb)))
      as (r & g & b & -> & _); [apply len_pos_nonempty; lia | eauto].
  - destruct (median_color_spec (sample_pixels img cb) Hsample)
      as (r & g & b & -> & _). eauto.
Qed.

Section TrimmerRuns.

Variable resize : Image rgb -> Z * Z -> Image rgb.

(** X8.  When a boundary is found above the bottom edge, the call returns True
    and saves an image of the target size in which the rows above the
    boundary are those of the (normalized) input and every row from the
    boundary down is filled with the estimated colour. *)
Theorem trim_fills_below_boundary (file : pil_image)
        (target_width target_height : option Z)
        (img : Image rgb) (file1 : pil_image) (saved : list (Image rgb)) (cb : Z) :
  let tw := or_default target_width 1242 in
  let th := or_default target_height 2688 in
  normalize resize file tw th = Ok (img, file1, saved) ->
  width img = tw -> height img = th -> 0 < tw ->
  find_content_bottom img = Ok (Some cb) -> cb < th ->
  exists bg_color new_img,
    estimate_fill img cb = Ok bg_color /\
    remove_white_space resize file target_width target_height
      = Ok (mkOutcome true (ImRGB new_img) (saved ++ [new_img])) /\
    width new_img = tw /\ height new_img = th /\
    forall x y, 0 <= x < tw -> 0 <= y < th ->
      getpixel new_img x y = if y <? cb then getpixel img x y else bg_color.
Proof.
  intros tw th Hnorm Hw Hh Htw Hfind Hcb.
  destruct (find_content_bottom_found img cb Hfind) as (_ & Hb & _).
  destruct (estimate_fill_total img cb ltac:(lia) ltac:(lia)) as [bg Hbg].
  exists bg. eexists. split; [exact Hbg |].
  unfold remove_white_space. cbv zeta. fold tw. fold th.
  rewrite Hnorm. cbn [bind]. cbv beta iota. rewrite Hfind. cbn [bind].
  replace (negb (cb =? 0) && (cb <? th)) with true
    by (symmetry; rewrite andb_true_iff, negb_true_iff, Z.eqb_neq, Z.ltb_lt; lia).
  rewrite Hbg. cbn [bind].
  replace (0 <? th - cb) with true by (symmetry; apply Z.ltb_lt; lia).
  split; [reflexivity |]. split; [reflexivity |]. split; [reflexivity |].
  intros x y Hx Hy.
  unfold paste, crop, Image_new, in_box. cbn [getpixel width height].
  destruct (Z.ltb_spec y cb) as [Hlt | Hge].
  - replace ((0 <=? x) && (x <? 0 + tw) && (cb <=? y) && (y <? cb + (th - cb)))
      with false
      by (symmetry; rewrite !andb_false_iff, !Z.leb_gt; lia).
    replace ((0 <=? x) && (x <? 0 + (width img - 0)) && (0 <=? y) && (y <? 0 + (cb - 0)))
      with true
      by (symmetry; rewrite !andb_true_iff, !Z.leb_le, !Z.ltb_lt; lia).
    replace ((0 <=? 0 + (x - 0)) && (0 + (x - 0) <? width img) &&
             (0 <=? 0 + (y - 0)) && (0 + (y - 0) <? height img))
      with true
      by (symmetry; rewrite !andb_true_iff, !Z.leb_le, !Z.ltb_lt; lia).
    f_equal; lia.
  - replace ((0 <=? x) && (x <? 0 + tw) && (cb <=? y) && (y <? cb + (th - cb)))
      with true
      by (symmetry; rewrite !andb_true_iff, !Z.leb_le, !Z.ltb_lt; lia).
    reflexivity.
Qed.

(** X9.  Whatever the call returns, the file is in one of two states: with False,
    the file and the saves are those of the first phase (nothing saved at all
    when the size already matched); with True, the last save and the file are
    one new image of exactly the target size. *)
Theorem trimmer_outcomes (file : pil_image) (target_width target_height : option Z)
        (o : outcome) :
  let tw := or_default target_width 1242 in
  let th := or_default target_height 2688 in
  remove_white_space resize file target_width target_height = Ok o ->
  exists img file1 saved,
    normalize resize file tw th = Ok (img, file1, saved) /\
    (pil_width file = tw /\ pil_height file = th /\ file1 = file /\ saved = []
     \/ (pil_width file <> tw \/ pil_height file <> th) /\
        file1 = ImRGB (resize (convert_RGB file) (tw, th)) /\
        saved = [resize (convert_RGB file) (tw, th)]) /\
    (returned o = false /\ file_after o = file1 /\ saves o = saved
     \/ returned o = true /\
        exists new_img,
          file_after o = ImRGB new_img /\ saves o = saved ++ [new_img] /\
          width new_img = tw /\ height new_img = th).
Proof.
  intros tw th Hrun.
  unfold remove_white_space in Hrun. cbv zeta in Hrun. fold tw in Hrun. fold th in Hrun.
  destruct (normalize resize file tw th) as [[[img file1] saved] |] eqn:Hnorm;
    cbn [bind] in Hrun; [| discriminate].
  exists img, file1, saved. split; [reflexivity |]. split.
  - destruct (normalize_Ok resize file tw th img file1 saved Hnorm)
      as [(Hw & Hh & _ & Hf & Hs) | (Hsize & _ & _ & _ & Hf & Hs)].
    + left. auto.
    + right. auto.
  - cbv beta iota in Hrun.
    destruct (find_content_bottom img) as [[cb |] |]; cbn [bind] in Hrun;
      try discriminate.
    + destruct (negb (cb =? 0) && (cb <? th)).
      * destruct (estimate_fill img cb) as [bg |]; cbn [bind] in Hrun;
          try discriminate.
        destruct (0 <? th - cb); inversion Hrun; subst o.
        -- right. split; [reflexivity |]. eexists.
           split; [reflexivity |]. split; [reflexivity |]. split; reflexivity.
        -- left. split; [reflexivity |]. split; reflexivity.
      * inversion Hrun; subst o. left. split; [reflexivity |]. split; reflexivity.
    + inversion Hrun; subst o. left. split; [reflexivity |]. split; reflexivity.
Qed.

End TrimmerRuns.

Lemma trim_fills_below_boundary_witness :
  exists bg_color new_img,
    estimate_fill fifty_survivors_image 20 = Ok bg_color /\
    remove_white_space nearest_resize (ImRGB fifty_survivors_image) (Some 10) (Some 22)
      = Ok (mkOutcome true (ImRGB new_img) ([] ++ [new_img])) /\
    width new_img = 10 /\ height new_img = 22 /\
    forall x y, 0 <= x < 10 -> 0 <= y < 22 ->
      getpixel new_img x y
      = if y <? 20 then getpixel fifty_survivors_image x y else bg_color.
Proof.
  apply (trim_fills_below_boundary nearest_resize (ImRGB fifty_survivors_image)
           (Some 10) (Some 22) fifty_survivors_image (ImRGB fifty_survivors_image) [] 20).
  - reflexivity.
  - reflexivity.
  - reflexivity.
  - reflexivity.
  - vm_compute. reflexivity.
  - reflexivity.
Defined.

Lemma trimmer_outcomes_witness :
  exists img file1 saved,
    normalize nearest_resize (ImRGB dark_image) 1 2 = Ok (img, file1, saved) /\
    (pil_width (ImRGB dark_image) = 1 /\ pil_height (ImRGB dark_image) = 2 /\
     file1 = ImRGB dark_image /\ saved = []
     \/ (pil_width (ImRGB dark_image) <> 1 \/ pil_height (ImRGB dark_image) <> 2) /\
        file1 = ImRGB (nearest_resize (convert_RGB (ImRGB dark_image)) (1, 2)) /\
        saved = [nearest_resize (convert_RGB (ImRGB dark_image)) (1, 2)]) /\
    (returned (mkOutcome false (ImRGB dark_image) []) = false /\
     file_after (mkOutcome false (ImRGB dark_image) []) = file1 /\
     saves (mkOutcome false (ImRGB dark_image) []) = saved
     \/ returned (mkOutcome false (ImRGB dark_image) []) = true /\
        exists new_img,
          file_after (mkOutcome false (ImRGB dark_image) []) = ImRGB new_img /\
          saves (mkOutcome false (ImRGB dark_image) []) = saved ++ [new_img] /\
          width new_img = 1 /\ height new_img = 2).
Proof.
  apply (trimmer_outcomes nearest_resize (ImRGB dark_image) (Some 1) (Some 2)
           (mkOutcome false (ImRGB dark_image) [])).
  vm_compute. reflexivity.
Defined.

(** * Further properties of the icon generator *)

(** X10.  The gradient is constant along every anti-diagonal: two pixels with the
    same x + y have the same colour, so the image is symmetric about its main
    diagonal. *)
Theorem gradient_constant_on_antidiagonals (size : Z) (start_color end_color : rgb) :
  1 <= size < 2 ^ 52 -> rgb_ok start_color -> rgb_ok end_color ->
  exists img,
    create_gradient size start_color end_color = Ok img /\
    (forall x y x' y', inside img x y -> inside img x' y' ->
       x + y = x' + y' -> getpixel img x y = getpixel img x' y') /\
    (forall x y, inside img x y -> getpixel img x y = getpixel img y x).
Proof.
  intros Hsize Hc0 Hc1.
  destruct (create_gradient_spec size start_color end_color
              (gradient_value size start_color end_color))
    as (img & Hrun & Hw & Hh & Hpx).
  { intros x y Hx Hy. now apply gradient_pixel_total. }
  assert (Hdiag : forall x y x' y', inside img x y -> inside img x' y' ->
            x + y = x' + y' -> getpixel img x y = getpixel img x' y').
  { intros x y x' y' Hin Hin' Hsum. rewrite !Hpx by assumption.
    unfold gradient_value.
    rewrite (gradient_pixel_diagonal size _ _ x y),
            (gradient_pixel_diagonal size _ _ x' y'), Hsum.
    reflexivity. }
  exists img. split; [exact Hrun |]. split; [exact Hdiag |].
  intros x y Hin. apply Hdiag; [exact Hin | | lia].
  unfold inside in *. rewrite Hw, Hh in *. lia.
Qed.

Lemma gradient_constant_on_antidiagonals_witness :
  exists img,
    create_gradient 5 (3, 3, 3) (200, 100, 0) = Ok img /\
    (forall x y x' y', inside img x y -> inside img x' y' ->
       x + y = x' + y' -> getpixel img x y = getpixel img x' y') /\
    (forall x y, inside img x y -> getpixel img x y = getpixel img y x).
Proof.
  apply (gradient_constant_on_antidiagonals 5 (3, 3, 3) (200, 100, 0)).
  - change (2 ^ 52) with 4503599627370496. lia.
  - unfold rgb_ok, channel_ok. lia.
  - unfold rgb_ok, channel_ok. lia.
Defined.

Lemma blend8_table :
  forallb (fun c => (blend8 0 c 0 =? c) && (blend8 255 0 c =? c)) (range 256) = true.
Proof. vm_compute. reflexivity. Qed.

Lemma blend8_keeps_or_copies (c p : Z) :
  (channel_ok c -> blend8 0 c p = c) /\ (channel_ok p -> blend8 255 c p = p).
Proof.
  split; intros Hc; unfold channel_ok in Hc.
  - pose proof (forall_range _ _ blend8_table c ltac:(lia)) as H.
    rewrite andb_true_iff, !Z.eqb_eq in H. destruct H as [H _].
    unfold blend8 in *. rewrite <- H at 3. f_equal. f_equal; [f_equal |]; lia.
  - pose proof (forall_range _ _ blend8_table p ltac:(lia)) as H.
    rewrite andb_true_iff, !Z.eqb_eq in H. destruct H as [_ H].
    unfold blend8 in *. rewrite <- H at 3. f_equal. f_equal; [f_equal |]; lia.
Qed.

Lemma icon_gradient_ok (bg : Image rgb) (x y : Z) :
  rgb_between GRADIENT_START GRADIENT_END (getpixel bg x y) -> rgb_ok (getpixel bg x y).
Proof.
  destruct (getpixel bg x y) as [[r g] b].
  unfold rgb_between, between, GRADIENT_START, GRADIENT_END.
  cbn [rgb_ok red green blue]. unfold channel_ok. lia.
Qed.

(** X11.  For a logo that fits the 920 x 920 box, with PIL's [thumbnail] leaving
    such an image as it is and PIL's mix keeping the canvas under mask 0 and
    copying the pasted value under mask 255: where the recolored logo pixel
    is transparent (white background, or an opacity of at most 10) the icon
    shows the gradient, and where the logo's channels sum to at most 382 the
    icon is pure white. *)
Theorem icon_shows_gradient_and_white (thumbnail : Image rgba -> Z * Z -> Image rgba)
        (mix : Z -> Z -> Z -> Z) (logo : pil_image) :
  pil_ok logo ->
  pil_width logo <= LOGO_SIZE -> pil_height logo <= LOGO_SIZE ->
  (forall im, width im <= LOGO_SIZE -> height im <= LOGO_SIZE ->
              thumbnail im (LOGO_SIZE, LOGO_SIZE) = im) ->
  (forall c p, channel_ok c -> mix 0 c p = c) ->
  (forall c p, channel_ok p -> mix 255 c p = p) ->
  exists out,
    main thumbnail mix (Some logo) = Ok (Some (ImRGB out)) /\
    forall i j, 0 <= i < pil_width logo -> 0 <= j < pil_height logo ->
      let x := (ICON_SIZE - pil_width logo) / 2 + i in
      let y := (ICON_SIZE - pil_height logo) / 2 + j in
      let p := getpixel (convert_RGBA logo) i j in
      (white_shape_truncating p = (0, 0, 0, 0) ->
       getpixel out x y = gradient_claimed ICON_SIZE GRADIENT_START GRADIENT_END x y) /\
      (sum_rgb (color_of p) <= 382 -> getpixel out x y = (255, 255, 255)).
Proof.
  intros Hok Hfw Hfh Hthumb Hmix0 Hmix255.
  destruct icon_gradient as (bg & Hbg & Hbw & Hbh & Hbpx).
  destruct (convert_to_white_preserve_shape_spec logo Hok)
    as (logo_white & Hlogo & Hw & Hh & Hpx).
  destruct (main_saves thumbnail mix logo bg logo_white Hbg Hlogo)
    as (out & Hmain & _ & _ & Hin & _).
  cbv zeta in Hin.
  rewrite Hthumb in Hin by lia. rewrite Hw, Hh in Hin.
  exists out. split; [exact Hmain |].
  intros i j Hi Hj x y p.
  assert (Hdivw : 2 * ((ICON_SIZE - pil_width logo) / 2) <= ICON_SIZE - pil_width logo).
  { pose proof (Z.div_mod (ICON_SIZE - pil_width logo) 2 ltac:(lia)).
    pose proof (Z.mod_pos_bound (ICON_SIZE - pil_width logo) 2 ltac:(lia)). lia. }
  assert (Hdivh : 2 * ((ICON_SIZE - pil_height logo) / 2) <= ICON_SIZE - pil_height logo).
  { pose proof (Z.div_mod (ICON_SIZE - pil_height logo) 2 ltac:(lia)).
    pose proof (Z.mod_pos_bound (ICON_SIZE - pil_height logo) 2 ltac:(lia)). lia. }
  assert (Hox : 0 <= (ICON_SIZE - pil_width logo) / 2)
    by (apply Z.div_pos; unfold ICON_SIZE, LOGO_SIZE in *; lia).
  assert (Hoy : 0 <= (ICON_SIZE - pil_height logo) / 2)
    by (apply Z.div_pos; unfold ICON_SIZE, LOGO_SIZE in *; lia).
  assert (Hxy : inside bg x y).
  { unfold inside. rewrite Hbw, Hbh. subst x y.
    unfold ICON_SIZE, LOGO_SIZE in *. lia. }
  destruct (Hbpx x y Hxy) as [Hval Hbetween].
  apply icon_gradient_ok in Hbetween.
  assert (Hbox : in_box ((ICON_SIZE - pil_width logo) / 2) ((ICON_SIZE - pil_height logo) / 2)
                   (pil_width logo) (pil_height logo) x y = true).
  { unfold in_box. subst x y. rewrite !andb_true_iff, !Z.leb_le, !Z.ltb_lt. lia. }
  specialize (Hin x y Hbox).
  replace (x - (ICON_SIZE - pil_width logo) / 2) with i in Hin by (subst x; lia).
  replace (y - (ICON_SIZE - pil_height logo) / 2) with j in Hin by (subst y; lia).
  rewrite Hpx in Hin by (unfold inside; rewrite Hw, Hh; lia).
  fold p in Hin. rewrite Hin, <- Hval.
  destruct (getpixel bg x y) as [[r0 g0] b0].
  destruct Hbetween as (Hr0 & Hg0 & Hb0).
  split.
  - intros ->. unfold mix_over. rewrite !Hmix0 by assumption. reflexivity.
  - intros Hdark.
    assert (Hp : rgba_ok p).
    { apply convert_RGBA_ok; [assumption |].
      destruct (convert_RGBA_size logo) as [Hw' Hh'].
      unfold inside. rewrite Hw', Hh'. lia. }
    destruct (white_shape_alpha_range p Hp) as [_ Hfull].
    apply Hfull in Hdark.
    destruct (white_shape_truncating_cases p) as [Hz | (o & Ho & Hwhite)].
    + rewrite Hz in Hdark. cbn [alpha] in Hdark. lia.
    + rewrite Hwhite in *. cbn [alpha] in Hdark. subst o.
      unfold mix_over. rewrite !Hmix255 by (unfold channel_ok; lia). reflexivity.
Qed.

Lemma icon_shows_gradient_and_white_witness :
  exists out,
    main thumbnail_unchanged blend8 (Some two_pixel_logo) = Ok (Some (ImRGB out)) /\
    forall i j, 0 <= i < pil_width two_pixel_logo -> 0 <= j < pil_height two_pixel_logo ->
      let x := (ICON_SIZE - pil_width two_pixel_logo) / 2 + i in
      let y := (ICON_SIZE - pil_height two_pixel_logo) / 2 + j in
      let p := getpixel (convert_RGBA two_pixel_logo) i j in
      (white_shape_truncating p = (0, 0, 0, 0) ->
       getpixel out x y = gradient_claimed ICON_SIZE GRADIENT_START GRADIENT_END x y) /\
      (sum_rgb (color_of p) <= 382 -> getpixel out x y = (255, 255, 255)).
Proof.
  apply (icon_shows_gradient_and_white thumbnail_unchanged blend8 two_pixel_logo).
  - solve_two_pixel_ok.
  - simpl. unfold LOGO_SIZE. lia.
  - simpl. unfold LOGO_SIZE. lia.
  - intros im _ _. reflexivity.
  - intros c p Hc. apply (proj1 (blend8_keeps_or_copies c p) Hc).
  - intros c p Hp. apply (proj2 (blend8_keeps_or_copies c p) Hp).
Defined.

(** * The trimmer does not raise *)

Lemma scan_rows_total (img : Image rgb) (ys : list Z) :
  0 < width img -> exists r, scan_rows img ys = Ok r.
Proof.
  intros Hw. induction ys as [| y ys IH]; cbn [scan_rows]; [eauto |].
  destruct (row_is_content_total img y Hw) as [[|] ->]; cbn [bind]; eauto.
Qed.

Lemma find_content_bottom_total (img : Image rgb) :
  0 < width img -> exists r, find_content_bottom img = Ok r.
Proof.
  intros Hw. unfold find_content_bottom.
  destruct (bottom_is_white_total img Hw) as [[|] ->]; cbn [bind]; [| eauto].
  apply scan_rows_total, Hw.
Qed.

(** X12.  The call raises [ValueError] when the image does not have the
    target size and a target dimension is not positive.  Whenever the first
    phase succeeds and leaves an image at least one pixel wide and one pixel
    high, the call returns: the averages never divide by zero and the medians
    never index an empty list. *)
Theorem trimmer_never_raises (resize : Image rgb -> Z * Z -> Image rgb)
        (file : pil_image) (target_width target_height : option Z) :
  let tw := or_default target_width 1242 in
  let th := or_default target_height 2688 in
  (pil_width file <> tw \/ pil_height file <> th -> tw <= 0 \/ th <= 0 ->
   remove_white_space resize file target_width target_height = Raise ValueError)
  /\
  (forall img file1 saved,
      normalize resize file tw th = Ok (img, file1, saved) ->
      0 < width img -> 0 < height img ->
      exists o, remove_white_space resize file target_width target_height = Ok o).
Proof.
  intros tw th. split.
  - intros Hsize Hneg. unfold remove_white_space. cbv zeta. fold tw. fold th.
    rewrite (normalize_raises resize file tw th Hsize Hneg). reflexivity.
  - intros img file1 saved Hnorm Hw Hh.
    unfold remove_white_space. cbv zeta. fold tw. fold th.
    rewrite Hnorm. cbn [bind]. cbv beta iota.
    destruct (find_content_bottom_total img Hw) as [[cb |] Hfind]; rewrite Hfind;
      cbn [bind]; [| eauto].
    destruct (negb (cb =? 0) && (cb <? th)); [| eauto].
    destruct (find_content_bottom_found img cb Hfind) as (_ & Hb & _).
    destruct (estimate_fill_total img cb Hw ltac:(lia)) as [bg ->]. cbn [bind].
    destruct (0 <? th - cb); eauto.
Qed.

Lemma trimmer_never_raises_witness :
  (remove_white_space nearest_resize (ImRGB white_image) (Some 1) (Some 0)
   = Raise ValueError)
  /\
  (exists o,
     remove_white_space nearest_resize (ImRGB fifty_survivors_image) (Some 10) (Some 22)
     = Ok o).
Proof.
  split.
  - apply (proj1 (trimmer_never_raises nearest_resize (ImRGB white_image)
                    (Some 1) (Some 0))).
    + right. simpl. lia.
    + right. simpl. lia.
  - apply (proj2 (trimmer_never_raises nearest_resize (ImRGB fifty_survivors_image)
                    (Some 10) (Some 22))
             fifty_survivors_image (ImRGB fifty_survivors_image) []).
    + reflexivity.
    + simpl. lia.
    + simpl. lia.
Defined.
